(** * Session lifecycle of the Mocha users-service SDK

    A shallow embedding of the SDK's backend client with its Hono
    middleware, and of the React [AuthProvider] in its two revisions: the
    one exposing [fetchUser] with the [isPending] and [isFetching] flags
    (the one the README describes), and the one exposing [loadUser].

    JavaScript values are a small inductive type, promises live in a table
    indexed by identifiers, every suspension point of an [async] function is
    a continuation waiting for an event of the environment, and every effect
    that leaves the component (a request, a state setter, a console line, a
    navigation) is appended to a trace. *)

From stdpp Require Import gmap strings list pretty.
From Stdlib Require Import ZArith.

Local Set Warnings "-register-all".

(** ** JavaScript values *)

(** What [response.json()] can produce, plus [undefined] (the value of a
    missing property).  Numbers are kept integral. *)
Inductive jsval : Type :=
| JUndefined
| JNull
| JBool (b : bool)
| JNum (n : Z)
| JStr (s : string)
| JArr (items : list jsval)
| JObj (fields : list (string * jsval)).

(** [!v]: the falsy values are undefined, null, false, 0 and the empty
    string. *)
Definition truthy (v : jsval) : bool :=
  match v with
  | JUndefined | JNull => false
  | JBool b => b
  | JNum n => negb (n =? 0)%Z
  | JStr s => negb (String.eqb s "")
  | JArr _ | JObj _ => true
  end.

Fixpoint assoc (k : string) (fields : list (string * jsval)) : option jsval :=
  match fields with
  | [] => None
  | (k', v) :: rest => if String.eqb k k' then Some v else assoc k rest
  end.

(** [v.k] for a value that is neither null nor undefined. *)
Definition get_prop (v : jsval) (k : string) : jsval :=
  match v with
  | JObj fields => default JUndefined (assoc k fields)
  | _ => JUndefined
  end.

(** ** Exceptions, requests and responses *)

Inductive exn : Type :=
| Error (message : string)
| TypeError (message : string)
| SyntaxError (message : string)
| HTTPException (status : nat) (message : string).

Record request : Type := {
  req_method : string;
  req_url : string;
  req_headers : list (string * string);
  (** the value handed to [JSON.stringify], when there is a body *)
  req_body : option jsval
}.

Record response : Type := {
  status : nat;
  statusText : string;
  (** what [response.json()] settles to; [None] when it rejects *)
  json_body : option jsval
}.

(** [response.ok]: the status is in the range 200-299. *)
Definition ok (r : response) : bool :=
  (200 <=? status r) && (status r <=? 299).

(** How the promise returned by [fetch] settles. *)
Inductive fetch_result : Type :=
| FetchRejected (e : exn)
| FetchResolved (r : response).

Inductive completion (A : Type) : Type :=
| Return (a : A)
| Throw (e : exn).
Arguments Return {A} a.
Arguments Throw {A} e.

(** [const { k: x } = v]: a [TypeError] on null and undefined. *)
Definition destructure (v : jsval) (k : string) : completion jsval :=
  match v with
  | JUndefined | JNull => Throw (TypeError "Cannot destructure")
  | _ => Return (get_prop v k)
  end.

(** ** The shared module: the user record *)

Module Shared.

(** [google_user_data]; an optional field is absent ([None]), null
    ([Some None]) or a string. *)
Record GoogleUserData : Type := {
  profile_email : string;
  email_verified : bool;
  family_name : option (option string);
  given_name : option (option string);
  hd : option (option string);
  name : option (option string);
  picture : option (option string);
  sub : string
}.

Record MochaUser : Type := {
  id : string;
  email : string;
  google_sub : string;
  google_user_data : GoogleUserData;
  last_signed_in_at : string;
  created_at : string;
  updated_at : string
}.

Definition optional (k : string) (v : option (option string))
    : list (string * jsval) :=
  match v with
  | None => []
  | Some None => [(k, JNull)]
  | Some (Some s) => [(k, JStr s)]
  end.

(** The JSON object a record travels as. *)
Definition profile_json (d : GoogleUserData) : jsval :=
  JObj ([("email", JStr (profile_email d));
         ("email_verified", JBool (email_verified d))]
        ++ optional "family_name" (family_name d)
        ++ optional "given_name" (given_name d)
        ++ optional "hd" (hd d)
        ++ optional "name" (name d)
        ++ optional "picture" (picture d)
        ++ [("sub", JStr (sub d))]).

Definition user_json (u : MochaUser) : jsval :=
  JObj [("id", JStr (id u)); ("email", JStr (email u));
        ("google_sub", JStr (google_sub u));
        ("google_user_data", profile_json (google_user_data u));
        ("last_signed_in_at", JStr (last_signed_in_at u));
        ("created_at", JStr (created_at u));
        ("updated_at", JStr (updated_at u))].

End Shared.

(** The value of a header in the [headers] object of a request. *)
Fixpoint assoc_header (k : string) (hs : list (string * string)) : option string :=
  match hs with
  | [] => None
  | (k', v) :: rest => if String.eqb k k' then Some v else assoc_header k rest
  end.

(** ** The backend module *)

Module Backend.

Record MochaUsersServiceOptions : Type := {
  apiUrl : option string;
  apiKey : string
}.

Definition DEFAULT_MOCHA_USERS_SERVICE_API_URL : string := "https://getmocha.com/u".
Definition MOCHA_SESSION_TOKEN_COOKIE_NAME : string := "mocha_session_token".
Definition SUPPORTED_OAUTH_PROVIDERS : list string := ["google"].

(** [Array.prototype.includes] on an array of strings. *)
Definition includes (l : list string) (x : string) : bool :=
  existsb (String.eqb x) l.

(** [options.apiUrl || DEFAULT_MOCHA_USERS_SERVICE_API_URL]: a missing and
    an empty url both give the default. *)
Definition base_url (options : MochaUsersServiceOptions) : string :=
  match apiUrl options with
  | None => DEFAULT_MOCHA_USERS_SERVICE_API_URL
  | Some u => if String.eqb u "" then DEFAULT_MOCHA_USERS_SERVICE_API_URL else u
  end.

(** A backend computation: the requests it issued, in order, and how it
    completed.  An [async] function that rejects is a [Throw]. *)
Definition IO (A : Type) : Type := list request * completion A.

Definition ret {A} (a : A) : IO A := ([], Return a).
Definition throw {A} (e : exn) : IO A := ([], Throw e).
Definition lift {A} (c : completion A) : IO A := ([], c).

Definition bind {A B} (m : IO A) (k : A → IO B) : IO B :=
  match m with
  | (reqs, Return a) => let '(reqs', c) := k a in (reqs ++ reqs', c)
  | (reqs, Throw e) => (reqs, Throw e)
  end.

(** [try { m } catch (error) { h error }] *)
Definition try_catch {A} (m : IO A) (h : exn → IO A) : IO A :=
  match m with
  | (reqs, Return a) => (reqs, Return a)
  | (reqs, Throw e) => let '(reqs', c) := h e in (reqs ++ reqs', c)
  end.

Notation "'let!' x ':=' m 'in' k" := (bind m (fun x => k))
  (at level 10, x name, m at level 100, k at level 200).

Section WithNetwork.

(** The remote directory, as seen through [fetch]. *)
Variable net : request → fetch_result.

(** [await fetch(url, init)] *)
Definition fetch (req : request) : IO response :=
  ([req], match net req with
          | FetchRejected e => Throw e
          | FetchResolved r => Return r
          end).

(** [await response.json()] *)
Definition json (r : response) : IO jsval :=
  match json_body r with
  | Some v => ret v
  | None => throw (SyntaxError "Unexpected token")
  end.

Definition redirect_url_request (provider : string)
    (options : MochaUsersServiceOptions) : request :=
  {| req_method := "GET";
     req_url := base_url options +:+ "/oauth/" +:+ provider +:+ "/redirect_url";
     req_headers := [("Content-Type", "application/json");
                     ("x-api-key", apiKey options)];
     req_body := None |}.

Definition getOAuthRedirectUrl (provider : string)
    (options : MochaUsersServiceOptions) : IO jsval :=
  if negb (includes SUPPORTED_OAUTH_PROVIDERS provider) then
    throw (Error ("Unsupported OAuth provider: " +:+ provider))
  else
    let! response := fetch (redirect_url_request provider options) in
    if negb (ok response) then
      throw (Error ("Failed to get redirect URL for provider " +:+ provider
                    +:+ ": " +:+ statusText response))
    else
      let! body := json response in
      let! redirect_url := lift (destructure body "redirect_url") in
      ret redirect_url.

Definition sessions_request (code : jsval)
    (options : MochaUsersServiceOptions) : request :=
  {| req_method := "POST";
     req_url := base_url options +:+ "/sessions";
     req_headers := [("Content-Type", "application/json");
                     ("x-api-key", apiKey options)];
     req_body := Some (JObj [("code", code)]) |}.

Definition exchangeCodeForSessionToken (code : string)
    (options : MochaUsersServiceOptions) : IO jsval :=
  let! response := fetch (sessions_request (JStr code) options) in
  if negb (ok response) then
    throw (Error ("Failed to exchange code for session token: "
                  +:+ statusText response))
  else
    let! body := json response in
    let! session_token := lift (destructure body "session_token") in
    ret session_token.

Definition users_me_request (sessionToken : string)
    (options : MochaUsersServiceOptions) : request :=
  {| req_method := "GET";
     req_url := base_url options +:+ "/users/me";
     req_headers := [("Authorization", "Bearer " +:+ sessionToken);
                     ("x-api-key", apiKey options)];
     req_body := None |}.

Definition getCurrentUser (sessionToken : string)
    (options : MochaUsersServiceOptions) : IO jsval :=
  try_catch
    (let! response := fetch (users_me_request sessionToken options) in
     if negb (ok response) then ret JNull
     else
       let! body := json response in
       let! user := lift (destructure body "data") in
       ret user)
    (fun error => (* console.error('Error validating session:', error) *)
       ret JNull).



(** The part of Hono's context the middleware touches: the request's
    cookies, the two bindings of [c.env] and the variables of [c.set]. *)
Record HonoContext : Type := {
  cookies : gmap string string;
  MOCHA_USERS_SERVICE_API_URL : option string;
  MOCHA_USERS_SERVICE_API_KEY : string;
  vars : gmap string jsval
}.

Definition getCookie (c : HonoContext) (name : string) : option string :=
  cookies c !! name.

(** [c.set(key, value)] *)
Definition c_set (key : string) (value : jsval) (c : HonoContext) : HonoContext :=
  {| cookies := cookies c;
     MOCHA_USERS_SERVICE_API_URL := MOCHA_USERS_SERVICE_API_URL c;
     MOCHA_USERS_SERVICE_API_KEY := MOCHA_USERS_SERVICE_API_KEY c;
     vars := <[key := value]> (vars c) |}.

(** What a middleware hands back to Hono: a response of its own, or nothing
    after the rest of the chain has run. *)
Inductive mw_result : Type :=
| JsonResponse (body : jsval) (code : nat)
| Passed.

Definition env_options (c : HonoContext) : MochaUsersServiceOptions :=
  {| apiUrl := MOCHA_USERS_SERVICE_API_URL c;
     apiKey := MOCHA_USERS_SERVICE_API_KEY c |}.

(** [next] is the rest of the chain, run on the context as the middleware
    left it. *)
Definition authMiddleware (c : HonoContext) (next : HonoContext → IO unit)
    : IO mw_result :=
  match getCookie c MOCHA_SESSION_TOKEN_COOKIE_NAME with
  | None => ret (JsonResponse (JObj [("error", JStr "Unauthorized")]) 401)
  | Some sessionToken =>
      let! user := getCurrentUser sessionToken (env_options c) in
      if negb (truthy user) then
        throw (HTTPException 401 "Invalid session token")
      else
        let! _ := next (c_set "user" user c) in
        ret Passed
  end.

End WithNetwork.

End Backend.

(** ** The React provider: what both revisions share *)

(** Promises and outstanding requests are named by numbers. *)
Abbreviation pid := nat (only parsing).
Abbreviation rid := nat (only parsing).

Inductive outcome : Type :=
| Fulfilled
| Rejected (e : exn).

(** What a call of one of the provider's functions gives its caller: a
    promise, or an exception thrown before any promise exists. *)
Inductive call_result : Type :=
| Handle (p : pid)
| Thrown (e : exn)
| NoResult.

(** Everything the provider does that is visible outside it, in the order
    in which it happens. *)
Inductive effect : Type :=
| SetUser (v : jsval)
| SetIsPending (b : bool)
| SetIsFetching (b : bool)
| Fetch (r : rid) (req : request)
| ConsoleError (label : string) (e : exn)
| SetLocationHref (v : jsval).

Definition same_origin (method url : string) (body : option jsval) : request :=
  {| req_method := method; req_url := url;
     req_headers := match body with
                    | Some _ => [("Content-Type", "application/json")]
                    | None => []
                    end;
     req_body := body |}.

Definition users_me : request := same_origin "GET" "/api/users/me" None.
Definition logout_req : request := same_origin "GET" "/api/logout" None.
Definition redirect_req : request :=
  same_origin "GET" "/api/oauth/google/redirect_url" None.
Definition sessions_req (code : string) : request :=
  same_origin "POST" "/api/sessions" (Some (JObj [("code", JStr code)])).

Definition is_fetch_of (url : string) (e : effect) : bool :=
  match e with
  | Fetch _ req => String.eqb (req_url req) url
  | _ => false
  end.

(** The number of requests to [url] in a trace. *)
Definition requests_to (url : string) (tr : list effect) : nat :=
  length (filter (fun e => is_fetch_of url e = true) tr).

(** What the environment can do to a mounted provider: run its mount
    effect, call one of the functions of the context value, settle the
    promise of an outstanding [fetch], or settle the [response.json()] of a
    response that has arrived.  [CallExchange code] carries what
    [urlParams.get('code')] would give at the time of the call. *)
Inductive event : Type :=
| Mount
| CallFetchUser
| CallLogout
| CallRedirectToLogin
| CallExchange (code : option string)
| FetchSettles (r : rid) (res : fetch_result)
| JsonSettles (r : rid).

Definition no_code_error : exn :=
  Error "Cannot exchange code for session token: no code provided in the URL search params.".

(** ** The provider with [fetchUser], [isPending] and [isFetching] *)

Module Provider.

(** Reactions attached inside the provider to the promise of a user fetch:
    the two callbacks of the mount effect, and an exchange suspended at
    [await fetchUser()]. *)
Inductive waiter : Type :=
| MountThen
| ExchangeAwaitsUser (e : pid).

Inductive promise : Type :=
| Pending (ws : list waiter)
| Settled (o : outcome).

(** An [async] body suspended at an [await] on the network. *)
Inductive cont : Type :=
| UserAwaitsFetch (p : pid)
| UserAwaitsJson (p : pid) (body : option jsval)
| LogoutAwaitsFetch (p : pid)
| RedirectAwaitsFetch (p : pid)
| RedirectAwaitsJson (p : pid) (body : option jsval)
| ExchangeAwaitsFetch (p : pid).

Record state : Type := {
  user : jsval;
  isPending : bool;
  isFetching : bool;
  userRef : option pid;
  exchangeRef : option pid;
  promises : gmap nat promise;
  inflight : gmap nat cont;
  next_pid : pid;
  next_rid : rid;
  trace : list effect
}.

Definition init : state :=
  {| user := JNull; isPending := true; isFetching := false;
     userRef := None; exchangeRef := None;
     promises := ∅; inflight := ∅; next_pid := 0; next_rid := 0;
     trace := [] |}.

Definition emit (e : effect) (st : state) : state :=
  {| user := user st; isPending := isPending st; isFetching := isFetching st;
     userRef := userRef st; exchangeRef := exchangeRef st;
     promises := promises st; inflight := inflight st;
     next_pid := next_pid st; next_rid := next_rid st;
     trace := trace st ++ [e] |}.

Definition setUser (v : jsval) (st : state) : state :=
  emit (SetUser v)
  {| user := v; isPending := isPending st; isFetching := isFetching st;
     userRef := userRef st; exchangeRef := exchangeRef st;
     promises := promises st; inflight := inflight st;
     next_pid := next_pid st; next_rid := next_rid st; trace := trace st |}.

Definition setIsPending (b : bool) (st : state) : state :=
  emit (SetIsPending b)
  {| user := user st; isPending := b; isFetching := isFetching st;
     userRef := userRef st; exchangeRef := exchangeRef st;
     promises := promises st; inflight := inflight st;
     next_pid := next_pid st; next_rid := next_rid st; trace := trace st |}.

Definition setIsFetching (b : bool) (st : state) : state :=
  emit (SetIsFetching b)
  {| user := user st; isPending := isPending st; isFetching := b;
     userRef := userRef st; exchangeRef := exchangeRef st;
     promises := promises st; inflight := inflight st;
     next_pid := next_pid st; next_rid := next_rid st; trace := trace st |}.

(** [userRef.current = v] *)
Definition set_userRef (v : option pid) (st : state) : state :=
  {| user := user st; isPending := isPending st; isFetching := isFetching st;
     userRef := v; exchangeRef := exchangeRef st;
     promises := promises st; inflight := inflight st;
     next_pid := next_pid st; next_rid := next_rid st; trace := trace st |}.

(** [exchangeRef.current = v] *)
Definition set_exchangeRef (v : option pid) (st : state) : state :=
  {| user := user st; isPending := isPending st; isFetching := isFetching st;
     userRef := userRef st; exchangeRef := v;
     promises := promises st; inflight := inflight st;
     next_pid := next_pid st; next_rid := next_rid st; trace := trace st |}.

Definition set_promise (p : pid) (v : promise) (st : state) : state :=
  {| user := user st; isPending := isPending st; isFetching := isFetching st;
     userRef := userRef st; exchangeRef := exchangeRef st;
     promises := <[p := v]> (promises st); inflight := inflight st;
     next_pid := next_pid st; next_rid := next_rid st; trace := trace st |}.

Definition set_inflight (m : gmap nat cont) (st : state) : state :=
  {| user := user st; isPending := isPending st; isFetching := isFetching st;
     userRef := userRef st; exchangeRef := exchangeRef st;
     promises := promises st; inflight := m;
     next_pid := next_pid st; next_rid := next_rid st; trace := trace st |}.

(** The promise of an [async] body that has just started. *)
Definition new_promise (st : state) : pid * state :=
  (next_pid st,
   {| user := user st; isPending := isPending st; isFetching := isFetching st;
      userRef := userRef st; exchangeRef := exchangeRef st;
      promises := <[next_pid st := Pending []]> (promises st);
      inflight := inflight st;
      next_pid := S (next_pid st); next_rid := next_rid st;
      trace := trace st |}).

(** [await fetch(...)]: the request leaves and the body is parked as [k]. *)
Definition await_fetch (req : request) (k : cont) (st : state) : state :=
  emit (Fetch (next_rid st) req)
  {| user := user st; isPending := isPending st; isFetching := isFetching st;
     userRef := userRef st; exchangeRef := exchangeRef st;
     promises := promises st;
     inflight := <[next_rid st := k]> (inflight st);
     next_pid := next_pid st; next_rid := S (next_rid st);
     trace := trace st |}.

(** An exchange body always ends by fulfilling its promise: its [catch]
    swallows every error. *)
Definition finish (p : pid) (st : state) : state :=
  set_promise p (Settled Fulfilled) st.

Definition console_error (label : string) (e : exn) (st : state) : state :=
  emit (ConsoleError label e) st.

(** A reaction runs with the outcome of the promise it was attached to. *)
Definition run_waiter (o : outcome) (st : state) (w : waiter) : state :=
  match w with
  | MountThen => setIsPending false st
  | ExchangeAwaitsUser e =>
      match o with
      | Fulfilled => finish e st
      | Rejected err => finish e (console_error "" err st)
      end
  end.

(** Settling a promise runs the reactions attached to it, in the order in
    which they were attached; settling a settled promise does nothing. *)
Definition settle (p : pid) (o : outcome) (st : state) : state :=
  match promises st !! p with
  | Some (Pending ws) => foldl (run_waiter o) (set_promise p (Settled o) st) ws
  | _ => st
  end.

(** [await p] (or [p.then(...)]) from inside the provider. *)
Definition attach (p : pid) (w : waiter) (st : state) : state :=
  match promises st !! p with
  | Some (Pending ws) => set_promise p (Pending (ws ++ [w])) st
  | Some (Settled o) => run_waiter o st w
  | None => st
  end.

(** [fetchUser()]: the promise in the slot if there is one, else a new body
    that runs up to its [await fetch('/api/users/me')] and is stored in the
    slot.  The [async] wrapper hands the caller a promise that adopts this
    one; the model names it by the promise it adopts. *)
Definition fetchUser (st : state) : pid * state :=
  match userRef st with
  | Some p => (p, st)
  | None =>
      let '(p, st) := new_promise st in
      let st := setIsFetching true st in
      let st := await_fetch users_me (UserAwaitsFetch p) st in
      (p, set_userRef (Some p) st)
  end.

(** The [finally] block of the body of [fetchUser], then its promise. *)
Definition fetchUser_finally (p : pid) (o : outcome) (st : state) : state :=
  settle p o (set_userRef None (setIsFetching false st)).

Definition fetch_user_failed (code : nat) : exn :=
  Error ("Failed to fetch user: API responded with HTTP status " +:+ pretty code).

Definition logout (st : state) : pid * state :=
  let '(p, st) := new_promise st in
  let st := setUser JNull st in
  (p, await_fetch logout_req (LogoutAwaitsFetch p) st).

Definition redirect_failed (code : nat) : exn :=
  Error ("Failed to get login redirect URL: API responded with HTTP status "
         +:+ pretty code).

Definition redirectToLogin (st : state) : pid * state :=
  let '(p, st) := new_promise st in
  (p, await_fetch redirect_req (RedirectAwaitsFetch p) st).

Definition exchange_failed (code : nat) : exn :=
  Error ("Failed to exchange code for session token: API responded with HTTP status "
         +:+ pretty code).

(** Not an [async] function: the missing code is thrown at the caller. *)
Definition exchangeCodeForSessionToken (code : option string) (st : state)
    : call_result * state :=
  match exchangeRef st with
  | Some p => (Handle p, st)
  | None =>
      match code with
      | None => (Thrown no_code_error, st)
      | Some c =>
          if String.eqb c "" then (Thrown no_code_error, st)
          else
            let '(p, st) := new_promise st in
            let st := await_fetch (sessions_req c) (ExchangeAwaitsFetch p) st in
            (Handle p, set_exchangeRef (Some p) st)
      end
  end.

(** The mount effect: [fetchUser().then(() => setIsPending(false),
    () => setIsPending(false))]. *)
Definition mount (st : state) : state :=
  let '(p, st) := fetchUser st in
  attach p MountThen st.

(** A parked body resumes with the way its [fetch] settled. *)
Definition resume_fetch (k : cont) (r : rid) (res : fetch_result) (st : state)
    : state :=
  let parked := st in
  let st := set_inflight (delete r (inflight st)) st in
  match k with
  | UserAwaitsFetch p =>
      match res with
      | FetchRejected e => fetchUser_finally p (Rejected e) st
      | FetchResolved resp =>
          if negb (ok resp) then
            fetchUser_finally p (Rejected (fetch_user_failed (status resp))) st
          else set_inflight (<[r := UserAwaitsJson p (json_body resp)]> (inflight st)) st
      end
  | LogoutAwaitsFetch p =>
      match res with
      | FetchRejected e => finish p (console_error "Failed to logout:" e st)
      | FetchResolved _ => finish p st
      end
  | RedirectAwaitsFetch p =>
      match res with
      | FetchRejected e => finish p (console_error "" e st)
      | FetchResolved resp =>
          if negb (ok resp) then
            finish p (console_error "" (redirect_failed (status resp)) st)
          else set_inflight (<[r := RedirectAwaitsJson p (json_body resp)]> (inflight st)) st
      end
  | ExchangeAwaitsFetch p =>
      match res with
      | FetchRejected e => finish p (console_error "" e st)
      | FetchResolved resp =>
          if negb (ok resp) then
            finish p (console_error "" (exchange_failed (status resp)) st)
          else
            let '(q, st) := fetchUser st in
            attach q (ExchangeAwaitsUser p) st
      end
  | UserAwaitsJson _ _ | RedirectAwaitsJson _ _ => parked
  end.

(** A body parked at [await response.json()] resumes. *)
Definition resume_json (k : cont) (r : rid) (st : state) : state :=
  let parked := st in
  let st := set_inflight (delete r (inflight st)) st in
  match k with
  | UserAwaitsJson p body =>
      match body with
      | None => fetchUser_finally p (Rejected (SyntaxError "Unexpected token")) st
      | Some v => fetchUser_finally p Fulfilled (setUser v st)
      end
  | RedirectAwaitsJson p body =>
      match body with
      | None => finish p (console_error "" (SyntaxError "Unexpected token") st)
      | Some v =>
          match destructure v "redirectUrl" with
          | Throw e => finish p (console_error "" e st)
          | Return redirectUrl => finish p (emit (SetLocationHref redirectUrl) st)
          end
      end
  | _ => parked
  end.

Definition step (st : state) (ev : event) : call_result * state :=
  match ev with
  | Mount => (NoResult, mount st)
  | CallFetchUser => let '(p, st) := fetchUser st in (Handle p, st)
  | CallLogout => let '(p, st) := logout st in (Handle p, st)
  | CallRedirectToLogin => let '(p, st) := redirectToLogin st in (Handle p, st)
  | CallExchange code => exchangeCodeForSessionToken code st
  | FetchSettles r res =>
      match inflight st !! r with
      | Some (UserAwaitsJson _ _) | Some (RedirectAwaitsJson _ _) | None =>
          (NoResult, st)
      | Some k => (NoResult, resume_fetch k r res st)
      end
  | JsonSettles r =>
      match inflight st !! r with
      | Some (UserAwaitsJson p b) => (NoResult, resume_json (UserAwaitsJson p b) r st)
      | Some (RedirectAwaitsJson p b) =>
          (NoResult, resume_json (RedirectAwaitsJson p b) r st)
      | _ => (NoResult, st)
      end
  end.

Definition run (st : state) (evs : list event) : state :=
  foldl (fun st ev => (step st ev).2) st evs.

(** The states a mounted provider can be in. *)
Definition reachable (st : state) : Prop := ∃ evs, st = run init evs.

End Provider.

(** ** The provider with [loadUser]

    No flags and no mount effect ("This provider does not call [loadUser]
    when mounted"); [logout], [redirectToLogin] and
    [exchangeCodeForSessionToken] read as in the other revision. *)

Module LoadUserProvider.

Inductive waiter : Type :=
| ExchangeAwaitsUser (e : pid).

Inductive promise : Type :=
| Pending (ws : list waiter)
| Settled (o : outcome).

Inductive cont : Type :=
| UserAwaitsFetch (p : pid)
| UserAwaitsJson (p : pid) (body : option jsval)
| LogoutAwaitsFetch (p : pid)
| RedirectAwaitsFetch (p : pid)
| RedirectAwaitsJson (p : pid) (body : option jsval)
| ExchangeAwaitsFetch (p : pid).

Record state : Type := {
  user : jsval;
  userRef : option pid;
  exchangeRef : option pid;
  promises : gmap nat promise;
  inflight : gmap nat cont;
  next_pid : pid;
  next_rid : rid;
  trace : list effect
}.

Definition init : state :=
  {| user := JNull; userRef := None; exchangeRef := None;
     promises := ∅; inflight := ∅; next_pid := 0; next_rid := 0;
     trace := [] |}.

Definition emit (e : effect) (st : state) : state :=
  {| user := user st; userRef := userRef st; exchangeRef := exchangeRef st;
     promises := promises st; inflight := inflight st;
     next_pid := next_pid st; next_rid := next_rid st;
     trace := trace st ++ [e] |}.

Definition setUser (v : jsval) (st : state) : state :=
  emit (SetUser v)
  {| user := v; userRef := userRef st; exchangeRef := exchangeRef st;
     promises := promises st; inflight := inflight st;
     next_pid := next_pid st; next_rid := next_rid st; trace := trace st |}.

Definition set_userRef (v : option pid) (st : state) : state :=
  {| user := user st; userRef := v; exchangeRef := exchangeRef st;
     promises := promises st; inflight := inflight st;
     next_pid := next_pid st; next_rid := next_rid st; trace := trace st |}.

Definition set_exchangeRef (v : option pid) (st : state) : state :=
  {| user := user st; userRef := userRef st; exchangeRef := v;
     promises := promises st; inflight := inflight st;
     next_pid := next_pid st; next_rid := next_rid st; trace := trace st |}.

Definition set_promise (p : pid) (v : promise) (st : state) : state :=
  {| user := user st; userRef := userRef st; exchangeRef := exchangeRef st;
     promises := <[p := v]> (promises st); inflight := inflight st;
     next_pid := next_pid st; next_rid := next_rid st; trace := trace st |}.

Definition set_inflight (m : gmap nat cont) (st : state) : state :=
  {| user := user st; userRef := userRef st; exchangeRef := exchangeRef st;
     promises := promises st; inflight := m;
     next_pid := next_pid st; next_rid := next_rid st; trace := trace st |}.

Definition new_promise (st : state) : pid * state :=
  (next_pid st,
   {| user := user st; userRef := userRef st; exchangeRef := exchangeRef st;
      promises := <[next_pid st := Pending []]> (promises st);
      inflight := inflight st;
      next_pid := S (next_pid st); next_rid := next_rid st;
      trace := trace st |}).

Definition await_fetch (req : request) (k : cont) (st : state) : state :=
  emit (Fetch (next_rid st) req)
  {| user := user st; userRef := userRef st; exchangeRef := exchangeRef st;
     promises := promises st;
     inflight := <[next_rid st := k]> (inflight st);
     next_pid := next_pid st; next_rid := S (next_rid st);
     trace := trace st |}.

Definition finish (p : pid) (st : state) : state :=
  set_promise p (Settled Fulfilled) st.

Definition console_error (label : string) (e : exn) (st : state) : state :=
  emit (ConsoleError label e) st.

Definition run_waiter (o : outcome) (st : state) (w : waiter) : state :=
  match w with
  | ExchangeAwaitsUser e =>
      match o with
      | Fulfilled => finish e st
      | Rejected err => finish e (console_error "" err st)
      end
  end.

Definition settle (p : pid) (o : outcome) (st : state) : state :=
  match promises st !! p with
  | Some (Pending ws) => foldl (run_waiter o) (set_promise p (Settled o) st) ws
  | _ => st
  end.

Definition attach (p : pid) (w : waiter) (st : state) : state :=
  match promises st !! p with
  | Some (Pending ws) => set_promise p (Pending (ws ++ [w])) st
  | Some (Settled o) => run_waiter o st w
  | None => st
  end.

(** [loadUser()]: as [fetchUser], without the flag; nothing ever empties
    the slot. *)
Definition loadUser (st : state) : pid * state :=
  match userRef st with
  | Some p => (p, st)
  | None =>
      let '(p, st) := new_promise st in
      let st := await_fetch users_me (UserAwaitsFetch p) st in
      (p, set_userRef (Some p) st)
  end.

(** The [catch] of the body of [loadUser]. *)
Definition loadUser_catch (p : pid) (e : exn) (st : state) : state :=
  settle p Fulfilled (setUser JNull (console_error "Failed to fetch user:" e st)).

Definition logout (st : state) : pid * state :=
  let '(p, st) := new_promise st in
  let st := setUser JNull st in
  (p, await_fetch logout_req (LogoutAwaitsFetch p) st).

Definition redirectToLogin (st : state) : pid * state :=
  let '(p, st) := new_promise st in
  (p, await_fetch redirect_req (RedirectAwaitsFetch p) st).

Definition exchangeCodeForSessionToken (code : option string) (st : state)
    : call_result * state :=
  match exchangeRef st with
  | Some p => (Handle p, st)
  | None =>
      match code with
      | None => (Thrown no_code_error, st)
      | Some c =>
          if String.eqb c "" then (Thrown no_code_error, st)
          else
            let '(p, st) := new_promise st in
            let st := await_fetch (sessions_req c) (ExchangeAwaitsFetch p) st in
            (Handle p, set_exchangeRef (Some p) st)
      end
  end.

Definition resume_fetch (k : cont) (r : rid) (res : fetch_result) (st : state)
    : state :=
  let parked := st in
  let st := set_inflight (delete r (inflight st)) st in
  match k with
  | UserAwaitsFetch p =>
      match res with
      | FetchRejected e => loadUser_catch p e st
      | FetchResolved resp =>
          if ok resp then
            set_inflight (<[r := UserAwaitsJson p (json_body resp)]> (inflight st)) st
          else settle p Fulfilled (setUser JNull st)
      end
  | LogoutAwaitsFetch p =>
      match res with
      | FetchRejected e => finish p (console_error "Failed to logout:" e st)
      | FetchResolved _ => finish p st
      end
  | RedirectAwaitsFetch p =>
      match res with
      | FetchRejected e => finish p (console_error "" e st)
      | FetchResolved resp =>
          if negb (ok resp) then
            finish p (console_error ""
              (Error ("Failed to get login redirect URL: API responded with HTTP status "
                      +:+ pretty (status resp))) st)
          else set_inflight (<[r := RedirectAwaitsJson p (json_body resp)]> (inflight st)) st
      end
  | ExchangeAwaitsFetch p =>
      match res with
      | FetchRejected e => finish p (console_error "" e st)
      | FetchResolved resp =>
          if negb (ok resp) then
            finish p (console_error ""
              (Error ("Failed to exchange code for session token: API responded with HTTP status "
                      +:+ pretty (status resp))) st)
          else
            let '(q, st) := loadUser st in
            attach q (ExchangeAwaitsUser p) st
      end
  | UserAwaitsJson _ _ | RedirectAwaitsJson _ _ => parked
  end.

Definition resume_json (k : cont) (r : rid) (st : state) : state :=
  let parked := st in
  let st := set_inflight (delete r (inflight st)) st in
  match k with
  | UserAwaitsJson p body =>
      match body with
      | None => loadUser_catch p (SyntaxError "Unexpected token") st
      | Some userData => settle p Fulfilled (setUser userData st)
      end
  | RedirectAwaitsJson p body =>
      match body with
      | None => finish p (console_error "" (SyntaxError "Unexpected token") st)
      | Some v =>
          match destructure v "redirectUrl" with
          | Throw e => finish p (console_error "" e st)
          | Return redirectUrl => finish p (emit (SetLocationHref redirectUrl) st)
          end
      end
  | _ => parked
  end.

(** [Mount] does nothing here and [CallFetchUser] is a call of
    [loadUser]. *)
Definition step (st : state) (ev : event) : call_result * state :=
  match ev with
  | Mount => (NoResult, st)
  | CallFetchUser => let '(p, st) := loadUser st in (Handle p, st)
  | CallLogout => let '(p, st) := logout st in (Handle p, st)
  | CallRedirectToLogin => let '(p, st) := redirectToLogin st in (Handle p, st)
  | CallExchange code => exchangeCodeForSessionToken code st
  | FetchSettles r res =>
      match inflight st !! r with
      | Some (UserAwaitsJson _ _) | Some (RedirectAwaitsJson _ _) | None =>
          (NoResult, st)
      | Some k => (NoResult, resume_fetch k r res st)
      end
  | JsonSettles r =>
      match inflight st !! r with
      | Some (UserAwaitsJson p b) => (NoResult, resume_json (UserAwaitsJson p b) r st)
      | Some (RedirectAwaitsJson p b) =>
          (NoResult, resume_json (RedirectAwaitsJson p b) r st)
      | _ => (NoResult, st)
      end
  end.

Definition run (st : state) (evs : list event) : state :=
  foldl (fun st ev => (step st ev).2) st evs.

End LoadUserProvider.

(** ** Invariants of the provider (the [fetchUser] revision) *)

Module ProviderInv.
Import Provider.

(** The promise a parked body will settle. *)
Definition cont_pid (k : cont) : pid :=
  match k with
  | UserAwaitsFetch p | UserAwaitsJson p _ | LogoutAwaitsFetch p
  | RedirectAwaitsFetch p | RedirectAwaitsJson p _ | ExchangeAwaitsFetch p => p
  end.

(** The parked bodies of [fetchUser]. *)
Definition user_cont (k : cont) : bool :=
  match k with
  | UserAwaitsFetch _ | UserAwaitsJson _ _ => true
  | _ => false
  end.

Definition is_pending (st : state) (p : pid) : Prop :=
  ∃ ws, promises st !! p = Some (Pending ws).

Definition is_settled (st : state) (p : pid) : Prop :=
  ∃ o, promises st !! p = Some (Settled o).

(** What running reactions leaves alone: everything but [isPending], the
    promises of exchanges (which they fulfil) and console lines. *)
Record frame (st st' : state) : Prop := {
  fr_user : user st' = user st;
  fr_isFetching : isFetching st' = isFetching st;
  fr_userRef : userRef st' = userRef st;
  fr_exchangeRef : exchangeRef st' = exchangeRef st;
  fr_inflight : inflight st' = inflight st;
  fr_next_pid : next_pid st' = next_pid st;
  fr_next_rid : next_rid st' = next_rid st;
  fr_requests : ∀ url, requests_to url (trace st') = requests_to url (trace st);
  fr_fulfilled : ∀ e, promises st !! e = Some (Settled Fulfilled) →
                      promises st' !! e = Some (Settled Fulfilled);
  fr_settled : ∀ e, is_settled st e → is_settled st' e;
  fr_isPending : isPending st = false → isPending st' = false
}.

(** What holds of every state a mounted provider reaches. *)
Record inv (st : state) : Prop := {
  inv_parked : ∀ r k, inflight st !! r = Some k →
                 r < next_rid st ∧ cont_pid k < next_pid st;
  inv_distinct : ∀ r r' k k', inflight st !! r = Some k →
                 inflight st !! r' = Some k' → cont_pid k = cont_pid k' → r = r';
  inv_slot : ∀ p, userRef st = Some p →
                 is_pending st p ∧
                 ∃ r k, inflight st !! r = Some k ∧ user_cont k = true ∧ cont_pid k = p;
  inv_user_cont : ∀ r k, inflight st !! r = Some k → user_cont k = true →
                 userRef st = Some (cont_pid k);
  inv_exchange : ∀ e, exchangeRef st = Some e → e < next_pid st;
  inv_refs : ∀ e, exchangeRef st = Some e → userRef st ≠ Some e;
  inv_exchange_promise : ∀ e, exchangeRef st = Some e →
                 is_pending st e ∨ promises st !! e = Some (Settled Fulfilled);
  inv_sessions : requests_to "/api/sessions" (trace st)
                 = match exchangeRef st with Some _ => 1 | None => 0 end
}.

(** While a user fetch is outstanding, a step either leaves it outstanding
    (it asks nothing of the current-user endpoint, leaves [isPending] alone
    and at most adds reactions to the promise), or ends it. *)
Definition user_op_continues (p : pid) (st st' : state) : Prop :=
  userRef st' = Some p ∧
  requests_to "/api/users/me" (trace st') = requests_to "/api/users/me" (trace st) ∧
  isPending st' = isPending st ∧
  ∀ ws, promises st !! p = Some (Pending ws) →
        ∃ ext, promises st' !! p = Some (Pending (ws ++ ext)).

(** The user fetch has ended: the slot is empty, the promise is settled
    and the reactions have run. *)
Definition user_op_ended (p : pid) (st st' : state) : Prop :=
  userRef st' = None ∧ is_settled st' p ∧ next_pid st' = next_pid st ∧
  ∀ ws, promises st !! p = Some (Pending ws) → MountThen ∈ ws →
        isPending st' = false.

(** What no step undoes: promise names are not reused, a settled promise
    stays settled, [isPending] does not come back and the exchange slot,
    once set, keeps its promise. *)
Record mono (st st' : state) : Prop := {
  mono_next_pid : next_pid st ≤ next_pid st';
  mono_settled : ∀ p, p < next_pid st → is_settled st p → is_settled st' p;
  mono_isPending : isPending st = false → isPending st' = false;
  mono_exchangeRef : ∀ e, exchangeRef st = Some e → exchangeRef st' = Some e
}.

(** After the mount effect has attached its callbacks to the user fetch
    [p]: either [p] is outstanding, holds the callbacks and sits in the
    slot while [isPending] is still true, or [p] has settled and
    [isPending] is false. *)
Definition mounted (p : pid) (st : state) : Prop :=
  p < next_pid st ∧
  ((∃ ws, promises st !! p = Some (Pending ws) ∧ MountThen ∈ ws) ∧
   isPending st = true ∧ userRef st = Some p
   ∨ is_settled st p ∧ isPending st = false).

End ProviderInv.

(** ** Who settles which promise (the [fetchUser] revision) *)

Module ProviderOwnership.
Import Provider ProviderInv.

(** The parked bodies of [exchangeCodeForSessionToken]. *)
Definition exchange_cont (k : cont) : bool :=
  match k with
  | ExchangeAwaitsFetch _ => true
  | _ => false
  end.

(** Every pending promise has exactly one way to settle: the body parked
    for it, or, for an exchange that awaits the user fetch, the reaction it
    left on the promise in the slot.  Reactions sit on the promise in the
    slot only, and [isFetching] says whether the slot is taken. *)
Record owned (st : state) : Prop := {
  own_ids : ∀ p x, promises st !! p = Some x → p < next_pid st;
  own_parked : ∀ r k, inflight st !! r = Some k → is_pending st (cont_pid k);
  own_exchange_cont : ∀ r k, inflight st !! r = Some k → exchange_cont k = true →
                 exchangeRef st = Some (cont_pid k);
  own_waiters : ∀ q ws w, promises st !! q = Some (Pending ws) → w ∈ ws →
                 userRef st = Some q;
  own_exchange_waiter : ∀ q ws e, promises st !! q = Some (Pending ws) →
                 ExchangeAwaitsUser e ∈ ws →
                 exchangeRef st = Some e ∧ is_pending st e ∧
                 ∀ r k, inflight st !! r = Some k → cont_pid k ≠ e;
  own_pending : ∀ p, is_pending st p →
                 (∃ r k, inflight st !! r = Some k ∧ cont_pid k = p) ∨
                 (∃ q ws, userRef st = Some q ∧
                          promises st !! q = Some (Pending ws) ∧
                          ExchangeAwaitsUser p ∈ ws);
  own_isFetching : isFetching st = match userRef st with
                                   | Some _ => true
                                   | None => false
                                   end
}.

#[global] Instance waiter_eq_dec : EqDecision waiter.
Proof. solve_decision. Defined.

End ProviderOwnership.

(** ** The states of the provider with [loadUser] *)

Module LoadUserInv.
Import LoadUserProvider.

Definition reachable (st : state) : Prop := ∃ evs, st = run init evs.

End LoadUserInv.

(** ** Runs in which no user fetch stores a record *)

Module ProviderRuns.
Import Provider.

(** The one event that stores a record as the user: the body of a success
    response of the current-user endpoint has been read and parsed. *)
Definition stores_user (st : state) (ev : event) : bool :=
  match ev with
  | JsonSettles r =>
      match inflight st !! r with
      | Some (UserAwaitsJson _ (Some _)) => true
      | _ => false
      end
  | _ => false
  end.

(** No event of [evs], run from [st], is such an event. *)
Fixpoint no_user_stored (st : state) (evs : list event) : bool :=
  match evs with
  | [] => true
  | ev :: evs' => negb (stores_user st ev) && no_user_stored (step st ev).2 evs'
  end.

End ProviderRuns.

(** ** Sample values *)

Module Samples.

Definition ada_record : Shared.MochaUser :=
  {| Shared.id := "u_1"; Shared.email := "ada@example.com";
     Shared.google_sub := "108";
     Shared.google_user_data :=
       {| Shared.profile_email := "ada@example.com";
          Shared.email_verified := true;
          Shared.family_name := Some (Some "Lovelace");
          Shared.given_name := Some (Some "Ada");
          Shared.hd := None;
          Shared.name := Some (Some "Ada Lovelace");
          Shared.picture := Some None;
          Shared.sub := "108" |};
     Shared.last_signed_in_at := "2025-06-01T10:00:00Z";
     Shared.created_at := "2025-05-01T10:00:00Z";
     Shared.updated_at := "2025-06-01T10:00:00Z" |}.

Definition ada : jsval := Shared.user_json ada_record.

Definition ok_json (v : jsval) : fetch_result :=
  FetchResolved {| status := 200; statusText := "OK"; json_body := Some v |}.

Definition unauthorized : fetch_result :=
  FetchResolved {| status := 401; statusText := "Unauthorized"; json_body := None |}.

Definition network_down : fetch_result :=
  FetchRejected (TypeError "Failed to fetch").

Definition options : Backend.MochaUsersServiceOptions :=
  {| Backend.apiUrl := None; Backend.apiKey := "key_1" |}.

(** A directory that knows one session and one provider. *)
Definition directory (req : request) : fetch_result :=
  if String.eqb (req_url req) "https://getmocha.com/u/users/me" then
    match assoc_header "Authorization" (req_headers req) with
    | Some "Bearer tok_1" => ok_json (JObj [("data", ada)])
    | _ => unauthorized
    end
  else if String.eqb (req_url req) "https://getmocha.com/u/oauth/google/redirect_url" then
    ok_json (JObj [("redirect_url", JStr "https://accounts.google.com/o/oauth2/v2/auth")])
  else unauthorized.

Definition refusing (req : request) : fetch_result := unauthorized.
Definition unreachable (req : request) : fetch_result := network_down.

Definition context (cookie : option string) : Backend.HonoContext :=
  {| Backend.cookies :=
       match cookie with
       | Some v => {[ Backend.MOCHA_SESSION_TOKEN_COOKIE_NAME := v ]}
       | None => ∅
       end;
     Backend.MOCHA_USERS_SERVICE_API_URL := None;
     Backend.MOCHA_USERS_SERVICE_API_KEY := "key_1";
     Backend.vars := ∅ |}.

(** A handler that needs nothing from the network. *)
Definition handler (c : Backend.HonoContext) : Backend.IO unit := Backend.ret ().

End Samples.

(** ** More sample values *)

Module MoreSamples.


(** Success responses with nothing usable in them. *)
Definition not_json : response :=
  {| status := 200; statusText := "OK"; json_body := None |}.
Definition no_data : response :=
  {| status := 200; statusText := "OK"; json_body := Some (JObj [("error", JNull)]) |}.
Definition garbling (req : request) : fetch_result := FetchResolved not_json.
Definition evasive (req : request) : fetch_result := FetchResolved no_data.

(** The events of a page that comes back from the identity provider. *)
Definition callback_page : list event :=
  [Mount; CallExchange (Some "abc123")].

End MoreSamples.

(** ** A logout overtaken by a user fetch *)

Module Scenarios.

(** The provider mounts; [logout] is called while the mount-time fetch is
    still outstanding; the fetch then comes back with a record; the logout
    request fails. *)
Definition logout_during_fetch : list event :=
  [Mount; CallLogout; FetchSettles 0 (Samples.ok_json Samples.ada); JsonSettles 0;
   FetchSettles 1 Samples.network_down].

End Scenarios.

(** * Properties *)

(** ** The session client and the request authenticator *)

Section BackendFacts.

Import Backend.

Variable net : request → fetch_result.

Lemma includes_supported provider :
  includes SUPPORTED_OAUTH_PROVIDERS provider = true ↔ provider = "google".
Proof.
  unfold includes, SUPPORTED_OAUTH_PROVIDERS. simpl.
  rewrite orb_false_r. apply String.eqb_eq.
Qed.

(** Whatever the network does, [getCurrentUser] issues its one request and
    returns. *)
Lemma getCurrentUser_returns sessionToken options :
  ∃ v, getCurrentUser net sessionToken options
       = ([users_me_request sessionToken options], Return v).
Proof.
  unfold getCurrentUser, try_catch, bind, fetch, json, lift, destructure, ret, throw.
  destruct (net _) as [e | r]; simpl; [eauto |].
  destruct (ok r); simpl; [| eauto].
  destruct (json_body r) as [[] |]; simpl; eauto.
Qed.

(** C3. [getCurrentUser] never raises: for every session token, every
    configuration and every behaviour of the network it completes by
    returning; when the transport fails or the response is not a success
    it returns null; and on a success response whose body is an object with
    a [data] field it returns that field as it is. *)
Theorem getCurrentUser_never_raises sessionToken options :
  let req := users_me_request sessionToken options in
  (∃ v, getCurrentUser net sessionToken options = ([req], Return v)) ∧
  (∀ e, net req = FetchRejected e →
        getCurrentUser net sessionToken options = ([req], Return JNull)) ∧
  (∀ r, net req = FetchResolved r → ok r = false →
        getCurrentUser net sessionToken options = ([req], Return JNull)) ∧
  (∀ r fields record,
        net req = FetchResolved r → ok r = true →
        json_body r = Some (JObj fields) → assoc "data" fields = Some record →
        getCurrentUser net sessionToken options = ([req], Return record)).
Proof.
  intros req. split; [apply getCurrentUser_returns |].
  unfold getCurrentUser, try_catch, bind, fetch, json, lift, destructure, ret, throw.
  fold req. repeat split.
  - intros e ->. reflexivity.
  - intros r -> Hok. simpl. rewrite Hok. reflexivity.
  - intros r fields record -> Hok Hbody Hdata. simpl.
    rewrite Hok, Hbody. simpl. rewrite Hdata. reflexivity.
Qed.

(** C4. The middleware is a three-way gate.  Without the session cookie it
    answers 401 with the body [{error: 'Unauthorized'}] and issues no
    request.  With the cookie it asks the directory once; when
    [getCurrentUser] gives a falsy value, as null is, it throws an
    [HTTPException] with status 401 and the rest of the chain does not run;
    when it gives a truthy value, as every user record is, the chain runs
    on the context in which [user] holds that value. *)
Theorem authMiddleware_gate (c : HonoContext) (next : HonoContext → IO unit) :
  (getCookie c MOCHA_SESSION_TOKEN_COOKIE_NAME = None →
     authMiddleware net c next
     = ([], Return (JsonResponse (JObj [("error", JStr "Unauthorized")]) 401))) ∧
  (∀ sessionToken,
     getCookie c MOCHA_SESSION_TOKEN_COOKIE_NAME = Some sessionToken →
     let req := users_me_request sessionToken (env_options c) in
     ∀ user, getCurrentUser net sessionToken (env_options c) = ([req], Return user) →
       (truthy user = false →
          authMiddleware net c next
          = ([req], Throw (HTTPException 401 "Invalid session token"))) ∧
       (truthy user = true →
          vars (c_set "user" user c) !! "user" = Some user ∧
          authMiddleware net c next
          = ([req] ++ (next (c_set "user" user c)).1,
             match (next (c_set "user" user c)).2 with
             | Return _ => Return Passed
             | Throw e => Throw e
             end))) ∧
  truthy JNull = false ∧ (∀ u, truthy (Shared.user_json u) = true).
Proof.
  unfold authMiddleware. split; [| split; [| done]].
  - intros ->. reflexivity.
  - intros sessionToken Hcookie user Huser. rewrite Hcookie, Huser.
    unfold bind. split.
    + intros ->. reflexivity.
    + intros ->. simpl. split; [apply lookup_insert_eq |].
      destruct (next _) as [reqs [[] | e]]; simpl; unfold ret;
        rewrite ?app_nil_r; reflexivity.
Qed.


End BackendFacts.

(** ** The client session coordinator *)

Section ProviderFacts.

Import Provider ProviderInv ProviderRuns.

Lemma requests_to_app url (tr tr' : list effect) :
  requests_to url (tr ++ tr') = requests_to url tr + requests_to url tr'.
Proof. unfold requests_to. rewrite filter_app. apply length_app. Qed.

Lemma frame_refl st : frame st st.
Proof. split; auto. Qed.

Lemma frame_trans st1 st2 st3 : frame st1 st2 → frame st2 st3 → frame st1 st3.
Proof.
  intros [] []. split; intros; try congruence; auto.
Qed.

Lemma frame_finish e st : frame st (finish e st).
Proof.
  split; try reflexivity; simpl.
  - intros e' H. destruct (decide (e = e')) as [-> |];
      [apply lookup_insert_eq | by rewrite lookup_insert_ne].
  - intros e' [o H]. unfold is_settled. simpl.
    destruct (decide (e = e')) as [-> |];
      [rewrite lookup_insert_eq | rewrite lookup_insert_ne]; eauto.
  - auto.
Qed.

Lemma frame_console_error label e st : frame st (console_error label e st).
Proof.
  split; try reflexivity; simpl; auto.
  intros url. rewrite requests_to_app. simpl. apply Nat.add_0_r.
Qed.

Lemma frame_setIsPending_false st : frame st (setIsPending false st).
Proof.
  split; try reflexivity; simpl; auto.
  intros url. rewrite requests_to_app. simpl. apply Nat.add_0_r.
Qed.

Lemma frame_run_waiter o st w : frame st (run_waiter o st w).
Proof.
  destruct w as [| e]; simpl.
  - apply frame_setIsPending_false.
  - destruct o.
    + apply frame_finish.
    + eapply frame_trans; [apply frame_console_error | apply frame_finish].
Qed.

Lemma frame_run_waiters o ws : ∀ st, frame st (foldl (run_waiter o) st ws).
Proof.
  induction ws as [| w ws IH]; intros st; simpl.
  - apply frame_refl.
  - eapply frame_trans; [apply frame_run_waiter | apply IH].
Qed.

Lemma frame_settle p o st : frame st (settle p o st).
Proof.
  unfold settle. destruct (promises st !! p) as [[ws | o'] |] eqn:Hp;
    try apply frame_refl.
  eapply frame_trans; [| apply frame_run_waiters].
  split; try reflexivity; simpl; auto.
  - intros e He. rewrite lookup_insert_ne; [done | congruence].
  - intros e [o' He]. unfold is_settled. simpl.
    rewrite lookup_insert_ne; [eauto | congruence].
Qed.

(** Once [MountThen] has run, [isPending] is false, and no later reaction
    sets it back. *)
Lemma run_waiters_mount o ws :
  ∀ st, MountThen ∈ ws → isPending (foldl (run_waiter o) st ws) = false.
Proof.
  induction ws as [| w ws IH]; intros st Hin; [by apply elem_of_nil in Hin |].
  apply elem_of_cons in Hin as [<- | Hin]; simpl.
  - apply (fr_isPending _ _ (frame_run_waiters o ws _)). reflexivity.
  - by apply IH.
Qed.

Lemma settle_settles p o st :
  is_pending st p → is_settled (settle p o st) p.
Proof.
  intros [ws Hp]. unfold settle. rewrite Hp.
  apply (fr_settled _ _ (frame_run_waiters o ws _)).
  exists o. simpl. apply lookup_insert_eq.
Qed.

Lemma run_waiters_promises o ws : ∀ st e,
  promises (foldl (run_waiter o) st ws) !! e = promises st !! e ∨
  promises (foldl (run_waiter o) st ws) !! e = Some (Settled Fulfilled).
Proof.
  induction ws as [| w ws IH]; intros st e; simpl; [by left |].
  destruct (IH (run_waiter o st w) e) as [-> | ->]; [| by right].
  destruct w as [| x]; simpl; [by left |].
  destruct (decide (x = e)) as [-> |].
  - right. destruct o; simpl; apply lookup_insert_eq.
  - left. destruct o; simpl; by rewrite lookup_insert_ne.
Qed.

(** Settling [p] changes no other promise, except that an exchange waiting
    for [p] gets fulfilled. *)
Lemma settle_promises p o st e :
  e ≠ p →
  promises (settle p o st) !! e = promises st !! e ∨
  promises (settle p o st) !! e = Some (Settled Fulfilled).
Proof.
  intros Hne. unfold settle.
  destruct (promises st !! p) as [[ws | o'] |]; try by left.
  destruct (run_waiters_promises o ws (set_promise p (Settled o) st) e) as [-> | ->];
    [left | by right].
  simpl. by rewrite lookup_insert_ne.
Qed.

Lemma settle_mount p o ws st :
  promises st !! p = Some (Pending ws) → MountThen ∈ ws →
  isPending (settle p o st) = false.
Proof. intros Hp Hin. unfold settle. rewrite Hp. by apply run_waiters_mount. Qed.

Ltac inv_lookups :=
  repeat match goal with
  | H : <[_ := _]> _ !! _ = Some _ |- _ =>
      apply lookup_insert_Some in H as [[<- <-] | [? H]]
  | H : delete _ _ !! _ = Some _ |- _ =>
      apply lookup_delete_Some in H as [? H]
  end.

Lemma requests_to_snoc url (tr : list effect) e :
  requests_to url (tr ++ [e])
  = requests_to url tr + (if is_fetch_of url e then 1 else 0).
Proof.
  rewrite requests_to_app. f_equal. unfold requests_to. simpl.
  unfold filter, list_filter. destruct (is_fetch_of url e); reflexivity.
Qed.

Lemma inv_init : inv init.
Proof. split; simpl; try done. Qed.

Lemma slot_lt st p : inv st → userRef st = Some p → p < next_pid st.
Proof.
  intros Hinv Hp. destruct (inv_slot _ Hinv _ Hp) as (_ & r & k & Hr & _ & <-).
  apply (inv_parked _ Hinv _ _ Hr).
Qed.


Ltac parked K1 :=
  repeat match goal with
  | H : inflight ?st !! ?r = Some ?k |- _ =>
      lazymatch goal with
      | _ : r < next_rid st ∧ cont_pid k < next_pid st |- _ => fail
      | _ => pose proof (K1 _ _ H)
      end
  end.


(** [inv] reads only the two tables, the two slots, the two counters and
    the number of exchange requests. *)
Lemma inv_ext st st' :
  inv st →
  inflight st' = inflight st → promises st' = promises st →
  userRef st' = userRef st → exchangeRef st' = exchangeRef st →
  next_pid st' = next_pid st → next_rid st' = next_rid st →
  requests_to "/api/sessions" (trace st') = requests_to "/api/sessions" (trace st) →
  inv st'.
Proof.
  intros [K1 K2 K3 K4 E1 X2 X E2] Hi Hp Hu He Hnp Hnr Ht.
  split; unfold is_pending; rewrite ?Hi, ?Hp, ?Hu, ?He, ?Hnp, ?Hnr, ?Ht; done.
Qed.

(** A body that is not one of [fetchUser] leaves its parking place. *)
Lemma inv_unpark st st' r k :
  inv st → inflight st !! r = Some k → user_cont k = false →
  inflight st' = delete r (inflight st) → promises st' = promises st →
  userRef st' = userRef st → exchangeRef st' = exchangeRef st →
  next_pid st' = next_pid st → next_rid st' = next_rid st →
  requests_to "/api/sessions" (trace st') = requests_to "/api/sessions" (trace st) →
  inv st'.
Proof.
  intros [K1 K2 K3 K4 E1 X2 X E2] Hr Hk Hi Hp Hu He Hnp Hnr Ht.
  split; unfold is_pending; rewrite ?Hi, ?Hp, ?Hu, ?He, ?Hnp, ?Hnr, ?Ht; try done.
  - intros r0 k0 H. inv_lookups. eauto.
  - intros r1 r2 k1 k2 H1 H2. inv_lookups. eauto.
  - intros p Hp'. destruct (K3 p Hp') as (Hpend & r0 & k0 & Hr0 & Hk0 & Hpid).
    split; [done |]. exists r0, k0. rewrite lookup_delete_ne; [done |].
    intros <-. congruence.
  - intros r0 k0 H. inv_lookups. eauto.
Qed.

(** A body that is not one of [fetchUser] ends and fulfils its promise. *)
Lemma inv_finish st st' r k :
  inv st → inflight st !! r = Some k → user_cont k = false →
  inflight st' = delete r (inflight st) →
  promises st' = <[cont_pid k := Settled Fulfilled]> (promises st) →
  userRef st' = userRef st → exchangeRef st' = exchangeRef st →
  next_pid st' = next_pid st → next_rid st' = next_rid st →
  requests_to "/api/sessions" (trace st') = requests_to "/api/sessions" (trace st) →
  inv st'.
Proof.
  intros [K1 K2 K3 K4 E1 X2 X E2] Hr Hk Hi Hp Hu He Hnp Hnr Ht.
  split; unfold is_pending; rewrite ?Hi, ?Hp, ?Hu, ?He, ?Hnp, ?Hnr, ?Ht; try done.
  - intros r0 k0 H. inv_lookups. eauto.
  - intros r1 r2 k1 k2 H1 H2. inv_lookups. eauto.
  - intros p Hp'. destruct (K3 p Hp') as ([ws Hws] & r0 & k0 & Hr0 & Hk0 & Hpid).
    assert (r ≠ r0) by (intros <-; congruence).
    split.
    + exists ws. rewrite lookup_insert_ne; [done |].
      intros Heq. apply (K2 r r0 k k0) in Hr; [done | done | congruence].
    + exists r0, k0. by rewrite lookup_delete_ne.
  - intros r0 k0 H. inv_lookups. eauto.
  - intros e Hx. destruct (decide (cont_pid k = e)) as [-> |].
    + right. apply lookup_insert_eq.
    + rewrite lookup_insert_ne by done. by apply X.
Qed.

(** The body of [fetchUser] ends: the slot is empty and reactions run. *)
Lemma inv_user_done st st1 r k o :
  inv st → inflight st !! r = Some k → user_cont k = true →
  inflight st1 = delete r (inflight st) → promises st1 = promises st →
  userRef st1 = None → exchangeRef st1 = exchangeRef st →
  next_pid st1 = next_pid st → next_rid st1 = next_rid st →
  requests_to "/api/sessions" (trace st1) = requests_to "/api/sessions" (trace st) →
  inv (settle (cont_pid k) o st1).
Proof.
  intros [K1 K2 K3 K4 E1 X2 X E2] Hr Hk Hi Hp Hu He Hnp Hnr Ht.
  pose proof (frame_settle (cont_pid k) o st1) as [F1 F2 F3 F4 F5 F6 F7 F8 _ _ _].
  split; unfold is_pending;
    rewrite ?F3, ?F4, ?F5, ?F6, ?F7, ?F8, ?Hi, ?Hu, ?He, ?Hnp, ?Hnr, ?Ht; try done.
  - intros r0 k0 H. inv_lookups. eauto.
  - intros r1 r2 k1 k2 H1 H2. inv_lookups. eauto.
  - intros r0 k0 H Hk0. inv_lookups. exfalso.
    pose proof (K4 _ _ H Hk0) as H1. pose proof (K4 _ _ Hr Hk) as H2.
    apply (K2 r r0 k k0) in Hr; [done | done | congruence].
  - intros e Hx.
    assert (e ≠ cont_pid k) as Hne.
    { intros ->. apply (X2 _ Hx). by apply (K4 r). }
    destruct (settle_promises (cont_pid k) o st1 e Hne) as [-> | ->];
      [| by right].
    rewrite Hp. by apply X.
Qed.

(** A body moves from [await fetch] to [await response.json()]. *)
Lemma inv_repark st st' r k k' :
  inv st → inflight st !! r = Some k →
  cont_pid k' = cont_pid k → user_cont k' = user_cont k →
  inflight st' = <[r := k']> (delete r (inflight st)) →
  promises st' = promises st →
  userRef st' = userRef st → exchangeRef st' = exchangeRef st →
  next_pid st' = next_pid st → next_rid st' = next_rid st →
  requests_to "/api/sessions" (trace st') = requests_to "/api/sessions" (trace st) →
  inv st'.
Proof.
  intros [K1 K2 K3 K4 E1 X2 X E2] Hr Hpid Hk Hi Hp Hu He Hnp Hnr Ht.
  split; unfold is_pending; rewrite ?Hi, ?Hp, ?Hu, ?He, ?Hnp, ?Hnr, ?Ht; try done.
  - intros r0 k0 H. inv_lookups; [rewrite Hpid |]; eauto.
  - intros r1 r2 k1 k2 H1 H2. inv_lookups; try done; rewrite ?Hpid; eauto.
  - intros p Hp'. destruct (K3 p Hp') as (Hpend & r0 & k0 & Hr0 & Hk0 & Hpid0).
    split; [done |]. destruct (decide (r = r0)) as [<- |].
    + exists r, k'. rewrite lookup_insert_eq. split; [done |].
      rewrite Hk, Hpid. split; congruence.
    + exists r0, k0. rewrite lookup_insert_ne, lookup_delete_ne; done.
  - intros r0 k0 H Hk0. inv_lookups; [rewrite Hpid; apply (K4 r k); congruence | eauto].
Qed.

(** A new body starts, with a new promise, and parks at its first
    [await]. *)
Lemma inv_park st st' k :
  inv st → cont_pid k = next_pid st →
  inflight st' = <[next_rid st := k]> (inflight st) →
  promises st' = <[next_pid st := Pending []]> (promises st) →
  next_pid st' = S (next_pid st) → next_rid st' = S (next_rid st) →
  (if user_cont k then userRef st = None ∧ userRef st' = Some (next_pid st)
   else userRef st' = userRef st) →
  (exchangeRef st' = exchangeRef st ∧
   requests_to "/api/sessions" (trace st') = requests_to "/api/sessions" (trace st)
   ∨ user_cont k = false ∧
     exchangeRef st = None ∧ exchangeRef st' = Some (next_pid st) ∧
     requests_to "/api/sessions" (trace st') = S (requests_to "/api/sessions" (trace st))) →
  inv st'.
Proof.
  intros Hinv Hpid Hi Hp Hnp Hnr Hu Hx.
  pose proof (λ p, slot_lt st p Hinv) as Hlt.
  destruct Hinv as [K1 K2 K3 K4 E1 X2 X E2].
  split; unfold is_pending; rewrite ?Hi, ?Hp, ?Hnp, ?Hnr.
  - intros r k0 H. inv_lookups; parked K1; lia.
  - intros r r' k0 k' H H'. inv_lookups; parked K1; try done; try lia; eauto.
  - intros p Hp'. destruct (user_cont k) eqn:Hk.
    + destruct Hu as [_ Hu]. rewrite Hu in Hp'. injection Hp' as <-.
      split; [exists []; apply lookup_insert_eq |].
      exists (next_rid st), k. by rewrite lookup_insert_eq.
    + rewrite Hu in Hp'.
      destruct (K3 p Hp') as ([ws Hws] & r & k0 & Hr & Hk0 & Hpid0).
      parked K1. split.
      * exists ws. rewrite lookup_insert_ne; [done | lia].
      * exists r, k0. rewrite lookup_insert_ne; [done | lia].
  - intros r k0 H Hk0. inv_lookups.
    + rewrite Hk0 in Hu. destruct Hu as [_ ->]. congruence.
    + destruct (user_cont k); [| rewrite Hu; eauto].
      destruct Hu as [Hnone _]. apply K4 in H; [congruence | done].
  - intros e He. destruct Hx as [[Hx _] | (_ & _ & Hx & _)]; rewrite Hx in He.
    + apply E1 in He. lia.
    + injection He as <-. lia.
  - intros e He. destruct Hx as [[Hx _] | (Hk & _ & Hx & _)]; rewrite Hx in He.
    + pose proof (E1 _ He). destruct (user_cont k).
      * destruct Hu as [_ ->]. intros [= Heq]. lia.
      * rewrite Hu. by apply X2.
    + injection He as <-. rewrite Hk in Hu. rewrite Hu.
      intros Hs. apply Hlt in Hs. lia.
  - intros e He. destruct Hx as [[Hx _] | (_ & _ & Hx & _)]; rewrite Hx in He.
    + pose proof (E1 _ He). rewrite lookup_insert_ne by lia. by apply X.
    + injection He as <-. left. exists []. apply lookup_insert_eq.
  - destruct Hx as [[Hx Ht] | (_ & Hx0 & Hx & Ht)]; rewrite Hx, Ht, E2; [done |].
    by rewrite Hx0.
Qed.

(** A reaction is attached to the promise in the slot. *)
Lemma inv_attach st p w :
  inv st → userRef st = Some p → inv (attach p w st).
Proof.
  intros Hinv Hp. destruct (inv_slot _ Hinv _ Hp) as ([ws Hws] & _).
  unfold attach. rewrite Hws. destruct Hinv as [K1 K2 K3 K4 E1 X2 X E2].
  split; simpl; try done.
  - intros q Hq. destruct (K3 q Hq) as ([ws' Hws'] & Hex). split; [| done].
    unfold is_pending. simpl. destruct (decide (p = q)) as [-> |].
    + rewrite lookup_insert_eq. eauto.
    + rewrite lookup_insert_ne; eauto.
  - intros e He. unfold is_pending. simpl.
    rewrite lookup_insert_ne; [by apply X |].
    intros ->. by apply (X2 _ He).
Qed.

Lemma fetchUser_inv st : inv st → inv (fetchUser st).2.
Proof.
  intros Hinv. unfold fetchUser. destruct (userRef st) eqn:Hu; [done |].
  simpl. eapply (inv_park st _ (UserAwaitsFetch (next_pid st)));
    try done; simpl.
  left. split; [done |]. rewrite !requests_to_snoc. simpl. lia.
Qed.

Lemma fetchUser_slot st :
  userRef (fetchUser st).2 = Some (fetchUser st).1.
Proof. unfold fetchUser. destruct (userRef st) eqn:Hu; done. Qed.

Lemma mount_inv st : inv st → inv (mount st).
Proof.
  intros Hinv. unfold mount.
  pose proof (fetchUser_inv st Hinv). pose proof (fetchUser_slot st).
  destruct (fetchUser st) as [p st1]. by apply inv_attach.
Qed.

Lemma logout_inv st : inv st → inv (logout st).2.
Proof.
  intros Hinv. simpl.
  eapply (inv_park st _ (LogoutAwaitsFetch (next_pid st))); try done; simpl.
  left. split; [done |]. rewrite !requests_to_snoc. simpl. lia.
Qed.

Lemma redirectToLogin_inv st : inv st → inv (redirectToLogin st).2.
Proof.
  intros Hinv. simpl.
  eapply (inv_park st _ (RedirectAwaitsFetch (next_pid st))); try done; simpl.
  left. split; [done |]. rewrite !requests_to_snoc. simpl. lia.
Qed.

Lemma exchange_inv code st :
  inv st → inv (exchangeCodeForSessionToken code st).2.
Proof.
  intros Hinv. unfold exchangeCodeForSessionToken.
  destruct (exchangeRef st) eqn:Hx; [done |].
  destruct code as [c |]; [| done]. destruct (String.eqb c ""); [done |].
  simpl. eapply (inv_park st _ (ExchangeAwaitsFetch (next_pid st))); try done; simpl.
  right. do 3 (split; [done |]). rewrite !requests_to_snoc. simpl. lia.
Qed.

Lemma fetchUser_finally_inv st st0 r k o :
  inv st → inflight st !! r = Some k → user_cont k = true →
  inflight st0 = delete r (inflight st) → promises st0 = promises st →
  exchangeRef st0 = exchangeRef st →
  next_pid st0 = next_pid st → next_rid st0 = next_rid st →
  requests_to "/api/sessions" (trace st0) = requests_to "/api/sessions" (trace st) →
  inv (fetchUser_finally (cont_pid k) o st0).
Proof.
  intros Hinv Hr Hk Hi Hp He Hnp Hnr Ht. unfold fetchUser_finally.
  eapply (inv_user_done st _ r k); simpl; try done.
  by rewrite requests_to_snoc, Ht, Nat.add_0_r.
Qed.

Lemma resume_fetch_inv st r k res :
  inv st → inflight st !! r = Some k → inv (resume_fetch k r res st).
Proof.
  intros Hinv Hr. unfold resume_fetch.
  destruct k as [p | p b | p | p | p b | p]; try done.
  - (* fetchUser *)
    destruct res as [e | resp]; [| destruct (ok resp)]; simpl.
    + by eapply (fetchUser_finally_inv st _ r (UserAwaitsFetch p)).
    + by eapply (inv_repark st _ r (UserAwaitsFetch p) (UserAwaitsJson p _)).
    + by eapply (fetchUser_finally_inv st _ r (UserAwaitsFetch p)).
  - (* logout *)
    destruct res as [e | resp].
    + eapply (inv_finish st _ r (LogoutAwaitsFetch p)); try done.
      simpl. by rewrite requests_to_snoc, Nat.add_0_r.
    + by eapply (inv_finish st _ r (LogoutAwaitsFetch p)).
  - (* redirectToLogin *)
    destruct res as [e | resp]; [| destruct (ok resp)]; simpl.
    + eapply (inv_finish st _ r (RedirectAwaitsFetch p)); try done.
      simpl. by rewrite requests_to_snoc, Nat.add_0_r.
    + by eapply (inv_repark st _ r (RedirectAwaitsFetch p) (RedirectAwaitsJson p _)).
    + eapply (inv_finish st _ r (RedirectAwaitsFetch p)); try done.
      simpl. by rewrite requests_to_snoc, Nat.add_0_r.
  - (* exchangeCodeForSessionToken *)
    destruct res as [e | resp]; [| destruct (ok resp)]; simpl.
    + eapply (inv_finish st _ r (ExchangeAwaitsFetch p)); try done.
      simpl. by rewrite requests_to_snoc, Nat.add_0_r.
    + assert (inv (set_inflight (delete r (inflight st)) st)) as Hinv0
        by by eapply (inv_unpark st _ r (ExchangeAwaitsFetch p)).
      pose proof (fetchUser_inv _ Hinv0). pose proof (fetchUser_slot (set_inflight (delete r (inflight st)) st)).
      destruct (fetchUser _) as [q st1]. by apply inv_attach.
    + eapply (inv_finish st _ r (ExchangeAwaitsFetch p)); try done.
      simpl. by rewrite requests_to_snoc, Nat.add_0_r.
Qed.

Lemma resume_json_inv st r k :
  inv st → inflight st !! r = Some k → inv (resume_json k r st).
Proof.
  intros Hinv Hr. unfold resume_json.
  destruct k as [p | p b | p | p | p b | p]; try done.
  - destruct b as [v |].
    + eapply (fetchUser_finally_inv st _ r (UserAwaitsJson p _)); try done.
      simpl. by rewrite requests_to_snoc, Nat.add_0_r.
    + by eapply (fetchUser_finally_inv st _ r (UserAwaitsJson p _)).
  - destruct b as [v |]; [destruct (destructure v "redirectUrl") |];
      (eapply (inv_finish st _ r (RedirectAwaitsJson p _)); try done;
       simpl; by rewrite requests_to_snoc, Nat.add_0_r).
Qed.

Lemma step_inv st ev : inv st → inv (step st ev).2.
Proof.
  intros Hinv. destruct ev as [| | | | code | r res | r]; cbn [step].
  - by apply mount_inv.
  - pose proof (fetchUser_inv st Hinv). by destruct (fetchUser st).
  - by apply logout_inv.
  - by apply redirectToLogin_inv.
  - by apply exchange_inv.
  - destruct (inflight st !! r) as [k |] eqn:Hr; [| done].
    destruct k; try done; exact (resume_fetch_inv _ _ _ _ Hinv Hr).
  - destruct (inflight st !! r) as [k |] eqn:Hr; [| done].
    destruct k; try done; exact (resume_json_inv _ _ _ Hinv Hr).
Qed.

Lemma run_inv evs : ∀ st, inv st → inv (run st evs).
Proof.
  induction evs as [| ev evs IH]; intros st Hinv; [done |].
  apply IH. by apply step_inv.
Qed.

Lemma reachable_inv st : reachable st → inv st.
Proof. intros [evs ->]. apply run_inv, inv_init. Qed.


(** *** The life of one user fetch *)

Lemma fetchUser_same st p : userRef st = Some p → fetchUser st = (p, st).
Proof. intros H. unfold fetchUser. by rewrite H. Qed.

Lemma attach_pending st p ws w :
  promises st !! p = Some (Pending ws) →
  attach p w st = set_promise p (Pending (ws ++ [w])) st.
Proof. intros H. unfold attach. by rewrite H. Qed.

Lemma fetchUser_finally_ends st st0 p o :
  is_pending st p → promises st0 = promises st → next_pid st0 = next_pid st →
  user_op_ended p st (fetchUser_finally p o st0).
Proof.
  intros Hp Hpr Hnp. unfold fetchUser_finally, user_op_ended.
  set (st1 := set_userRef None (setIsFetching false st0)).
  pose proof (frame_settle p o st1) as F.
  rewrite (fr_userRef _ _ F), (fr_next_pid _ _ F). simpl.
  split; [done |]. split; [| split; [done |]].
  - apply settle_settles. unfold is_pending. simpl. by rewrite Hpr.
  - intros ws Hws Hin. apply (settle_mount p o ws); [| done].
    simpl. by rewrite Hpr.
Qed.

(** Closes a goal [user_op_continues p st st'] once [st'] is explicit. *)
Ltac continues_with ext :=
  left; split; [done |]; split;
  [simpl; rewrite ?requests_to_snoc; simpl; rewrite ?Nat.add_0_r; done |];
  split; [done |];
  let ws := fresh "ws" in let H := fresh "H" in
  intros ws H; exists ext; simpl;
  rewrite ?lookup_insert_eq, ?app_nil_r;
  rewrite ?lookup_insert_ne by (first [done | lia]); first [done | congruence].

Ltac continues := continues_with (@nil waiter).

Lemma user_op_step st p ev :
  inv st → userRef st = Some p →
  user_op_continues p st (step st ev).2 ∨ user_op_ended p st (step st ev).2.
Proof.
  intros Hinv Hu.
  pose proof (slot_lt st p Hinv Hu) as Hlt.
  destruct (inv_slot _ Hinv _ Hu) as ([ws Hws] & r0 & k0 & Hr0 & Hk0 & Hpid0).
  assert (is_pending st p) as Hpend by (by exists ws).
  assert (∀ r k, inflight st !! r = Some k → user_cont k = true → cont_pid k = p) as Hk.
  { intros r k Hr Hkk. pose proof (inv_user_cont _ Hinv _ _ Hr Hkk). congruence. }
  assert (∀ r k, inflight st !! r = Some k → user_cont k = false → cont_pid k ≠ p) as Hne.
  { intros r k Hr Hkk Heq. rewrite <- Hpid0 in Heq.
    pose proof (inv_distinct _ Hinv _ _ _ _ Hr Hr0 Heq). subst r0. congruence. }
  destruct ev as [| | | | code | r res | r]; cbn [step].
  - unfold mount. rewrite (fetchUser_same _ _ Hu), (attach_pending _ _ _ _ Hws).
    continues_with [MountThen].
  - rewrite (fetchUser_same _ _ Hu). continues.
  - continues.
  - continues.
  - unfold exchangeCodeForSessionToken.
    destruct (exchangeRef st); [continues |].
    destruct code as [c |]; [| continues]. destruct (String.eqb c ""); continues.
  - destruct (inflight st !! r) as [k |] eqn:Hr; [| continues].
    destruct k as [q | q b | q | q | q b | q]; try continues;
      unfold resume_fetch; cbn [snd].
    + pose proof (Hk _ _ Hr eq_refl) as Hq. simpl in Hq. subst q.
      destruct res as [e | resp]; [| destruct (ok resp)]; simpl.
      * right. by apply fetchUser_finally_ends.
      * continues.
      * right. by apply fetchUser_finally_ends.
    + pose proof (Hne _ _ Hr eq_refl) as Hq. simpl in Hq.
      destruct res as [e | resp]; continues.
    + pose proof (Hne _ _ Hr eq_refl) as Hq. simpl in Hq.
      destruct res as [e | resp]; [| destruct (ok resp)]; continues.
    + pose proof (Hne _ _ Hr eq_refl) as Hq. simpl in Hq.
      destruct res as [e | resp]; [| destruct (ok resp)]; simpl; try continues.
      rewrite (fetchUser_same _ p) by done.
      rewrite (attach_pending _ _ ws) by done.
      continues_with [ExchangeAwaitsUser q].
  - destruct (inflight st !! r) as [k |] eqn:Hr; [| continues].
    destruct k as [q | q b | q | q | q b | q]; try continues;
      unfold resume_json; cbn [snd].
    + pose proof (Hk _ _ Hr eq_refl) as Hq. simpl in Hq. subst q.
      right. destruct b; by apply fetchUser_finally_ends.
    + pose proof (Hne _ _ Hr eq_refl) as Hq. simpl in Hq.
      destruct b as [v |]; [destruct (destructure v "redirectUrl") |]; continues.
Qed.

(** *** What no step undoes *)

Lemma mono_refl st : mono st st.
Proof. by split. Qed.

Lemma mono_trans st1 st2 st3 : mono st1 st2 → mono st2 st3 → mono st1 st3.
Proof.
  intros [A1 A2 A3 A4] [B1 B2 B3 B4]. split; [lia | | auto | auto].
  intros p Hlt Hs. apply B2; [lia | auto].
Qed.

(** A step that leaves the promises below [next_pid], [isPending] and a
    set exchange slot as they are. *)
Lemma mono_ext st st0 st1 :
  mono st st0 →
  next_pid st0 ≤ next_pid st1 →
  (∀ p, p < next_pid st0 → promises st1 !! p = promises st0 !! p) →
  isPending st1 = isPending st0 →
  (∀ e, exchangeRef st0 = Some e → exchangeRef st1 = Some e) →
  mono st st1.
Proof.
  intros H Hnp Hp Hf Hx. eapply mono_trans; [exact H |].
  split; [done | | by rewrite Hf | done].
  intros p Hlt [o Ho]. exists o. by rewrite Hp.
Qed.

Lemma mono_frame st st0 st1 : mono st st0 → frame st0 st1 → mono st st1.
Proof.
  intros H F. eapply mono_trans; [exact H |]. destruct F. split.
  - lia.
  - auto.
  - auto.
  - intros e He. congruence.
Qed.

Lemma mono_finish q st st0 : mono st st0 → mono st (finish q st0).
Proof. intros H. eapply mono_frame; [exact H | apply frame_finish]. Qed.

Lemma mono_settle p o st st0 : mono st st0 → mono st (settle p o st0).
Proof. intros H. eapply mono_frame; [exact H | apply frame_settle]. Qed.

Lemma mono_attach p w st st0 : mono st st0 → mono st (attach p w st0).
Proof.
  intros H. unfold attach.
  destruct (promises st0 !! p) as [[ws | o] |] eqn:Hp; [| | done].
  - eapply mono_trans; [exact H |]. split; simpl; [done | | done | done].
    intros q Hlt [o Ho]. exists o. simpl.
    rewrite lookup_insert_ne; [done | congruence].
  - eapply mono_frame; [exact H | apply frame_run_waiter].
Qed.

(** The record updates between the suspension points. *)
Ltac mono_simple H :=
  eapply mono_ext; [exact H | simpl; lia | | done | done];
  let p := fresh "p" in let Hlt := fresh "Hlt" in
  intros p Hlt; simpl; rewrite ?lookup_insert_ne by lia; done.

Lemma mono_fetchUser st st0 : mono st st0 → mono st (fetchUser st0).2.
Proof.
  intros H. unfold fetchUser. destruct (userRef st0); [done |].
  simpl. mono_simple H.
Qed.

Lemma mono_fetchUser_finally p o st st0 :
  mono st st0 → mono st (fetchUser_finally p o st0).
Proof.
  intros H. unfold fetchUser_finally. apply mono_settle. mono_simple H.
Qed.

Lemma mono_unpark r st st0 :
  mono st st0 → mono st (set_inflight (delete r (inflight st0)) st0).
Proof. intros H. mono_simple H. Qed.

Lemma mono_console_error label e st st0 :
  mono st st0 → mono st (console_error label e st0).
Proof. intros H. mono_simple H. Qed.

Lemma mono_step st ev : mono st (step st ev).2.
Proof.
  pose proof (mono_refl st) as H.
  destruct ev as [| | | | code | r res | r]; cbn [step].
  - unfold mount. pose proof (mono_fetchUser st st H).
    destruct (fetchUser st) as [p st1]. by apply mono_attach.
  - pose proof (mono_fetchUser st st H). by destruct (fetchUser st).
  - simpl. mono_simple H.
  - simpl. mono_simple H.
  - unfold exchangeCodeForSessionToken. destruct (exchangeRef st) eqn:Hx; [done |].
    destruct code as [c |]; [| done]. destruct (String.eqb c ""); [done |].
    simpl. eapply mono_ext; [exact H | simpl; lia | | done |].
    + intros p Hlt. simpl. rewrite lookup_insert_ne by lia. done.
    + intros e He. congruence.
  - destruct (inflight st !! r) as [k |] eqn:Hr; [| done].
    pose proof (mono_unpark r st st H) as H0.
    destruct k as [q | q b | q | q | q b | q]; try done;
      unfold resume_fetch; cbn [snd]; cbv zeta.
    + destruct res as [e | resp]; [| destruct (ok resp)]; cbn [negb].
      * by apply mono_fetchUser_finally.
      * mono_simple H.
      * by apply mono_fetchUser_finally.
    + destruct res as [e | resp].
      * by apply mono_finish, mono_console_error.
      * by apply mono_finish.
    + destruct res as [e | resp]; [| destruct (ok resp)]; cbn [negb].
      * by apply mono_finish, mono_console_error.
      * mono_simple H.
      * by apply mono_finish, mono_console_error.
    + destruct res as [e | resp]; [| destruct (ok resp)]; cbn [negb].
      * by apply mono_finish, mono_console_error.
      * pose proof (mono_fetchUser st _ H0).
        destruct (fetchUser _) as [p st1]. by apply mono_attach.
      * by apply mono_finish, mono_console_error.
  - destruct (inflight st !! r) as [k |] eqn:Hr; [| done].
    pose proof (mono_unpark r st st H) as H0.
    destruct k as [q | q b | q | q | q b | q]; try done;
      unfold resume_json; cbn [snd]; cbv zeta.
    + destruct b as [v |]; apply mono_fetchUser_finally; [mono_simple H | done].
    + destruct b as [v |]; [destruct (destructure v "redirectUrl") |];
        apply mono_finish; mono_simple H.
Qed.

Lemma mono_run evs : ∀ st, mono st (run st evs).
Proof.
  induction evs as [| ev evs IH]; intros st; [apply mono_refl |].
  eapply mono_trans; [apply (mono_step st ev) | apply IH].
Qed.

(** *** The mount effect *)

Lemma fetchUser_isPending st : isPending (fetchUser st).2 = isPending st.
Proof. unfold fetchUser. by destruct (userRef st). Qed.

Lemma mounted_mount st :
  inv st → isPending st = true → mounted (fetchUser st).1 (mount st).
Proof.
  intros Hinv Hpend. pose proof (mount_inv st Hinv) as Hinv'. unfold mount in *.
  pose proof (fetchUser_inv st Hinv) as Hinv1.
  pose proof (fetchUser_slot st) as Hslot.
  pose proof (fetchUser_isPending st) as Hp1.
  destruct (fetchUser st) as [p st1]. simpl in *.
  destruct (inv_slot _ Hinv1 _ Hslot) as ([ws Hws] & _).
  rewrite (attach_pending _ _ _ _ Hws) in *.
  split; [by apply (slot_lt _ p Hinv') |]. left. split; [| split]; simpl.
  - exists (ws ++ [MountThen]). rewrite lookup_insert_eq. split; [done |].
    apply elem_of_app. right. apply list_elem_of_singleton. done.
  - congruence.
  - done.
Qed.

Lemma mounted_step p st ev :
  inv st → mounted p st → mounted p (step st ev).2.
Proof.
  intros Hinv [Hlt [((ws & Hws & Hin) & Hpend & Hu) | [Hs Hpf]]].
  - pose proof (mono_next_pid _ _ (mono_step st ev)) as Hnp.
    split; [lia |].
    destruct (user_op_step st p ev Hinv Hu) as [(Hu' & _ & Hp' & Hgrow) | (_ & Hs' & _ & Hdone)].
    + left. destruct (Hgrow ws Hws) as [ext Hext]. split; [| split; congruence].
      exists (ws ++ ext). split; [done |]. apply elem_of_app. by left.
    + right. split; [done |]. by apply (Hdone ws).
  - destruct (mono_step st ev) as [M1 M2 M3 _].
    split; [lia |]. right. split; auto.
Qed.

Lemma mounted_run p evs : ∀ st, inv st → mounted p st → mounted p (run st evs).
Proof.
  induction evs as [| ev evs IH]; intros st Hinv Hm; [done |].
  apply IH; [by apply step_inv | by apply mounted_step].
Qed.

(** *** Claims about the coordinator *)

(** C1. In every state a mounted provider can reach.  With the slot empty,
    a call of [fetchUser] makes a new promise, sets [isFetching], sends one
    request to the current-user endpoint and parks its body on it, and a
    second call right after gives the same promise and sends nothing: one
    request in total for the two calls.  With a user fetch [p] outstanding:
    [p] is pending and its body is parked on a request; a further call
    gives [p] back and changes nothing; a rejected [fetch], a response that
    is not a success, and the reading of the body of a success (parsed or
    not) each settle [p] and empty the slot, while a success response alone
    keeps [p] in the slot until its body is read; and each step either
    keeps [p] outstanding in the slot without any request to the
    current-user endpoint, or settles [p] and empties the slot, after which
    a call of [fetchUser] starts another promise and sends one more request
    to that endpoint. *)
Theorem fetchUser_single_flight st :
  reachable st →
  (userRef st = None →
     step st CallFetchUser = (Handle (next_pid st), (step st CallFetchUser).2) ∧
     trace (step st CallFetchUser).2
     = trace st ++ [SetIsFetching true; Fetch (next_rid st) users_me] ∧
     userRef (step st CallFetchUser).2 = Some (next_pid st) ∧
     inflight (step st CallFetchUser).2 !! next_rid st
     = Some (UserAwaitsFetch (next_pid st)) ∧
     step (step st CallFetchUser).2 CallFetchUser
     = (Handle (next_pid st), (step st CallFetchUser).2) ∧
     requests_to "/api/users/me" (trace (run st [CallFetchUser; CallFetchUser]))
     = S (requests_to "/api/users/me" (trace st))) ∧
  (∀ p, userRef st = Some p →
     is_pending st p ∧
     step st CallFetchUser = (Handle p, st) ∧
     (∃ r k, inflight st !! r = Some k ∧ user_cont k = true ∧ cont_pid k = p) ∧
     (∀ r res, inflight st !! r = Some (UserAwaitsFetch p) →
        (∀ resp, res = FetchResolved resp → ok resp = false) →
        userRef (step st (FetchSettles r res)).2 = None ∧
        is_settled (step st (FetchSettles r res)).2 p) ∧
     (∀ r resp, inflight st !! r = Some (UserAwaitsFetch p) → ok resp = true →
        userRef (step st (FetchSettles r (FetchResolved resp))).2 = Some p ∧
        inflight (step st (FetchSettles r (FetchResolved resp))).2 !! r
        = Some (UserAwaitsJson p (json_body resp))) ∧
     (∀ r body, inflight st !! r = Some (UserAwaitsJson p body) →
        userRef (step st (JsonSettles r)).2 = None ∧
        is_settled (step st (JsonSettles r)).2 p) ∧
     ∀ ev,
       (userRef (step st ev).2 = Some p ∧ is_pending (step st ev).2 p ∧
        requests_to "/api/users/me" (trace (step st ev).2)
        = requests_to "/api/users/me" (trace st))
       ∨
       (userRef (step st ev).2 = None ∧ is_settled (step st ev).2 p ∧
        ∃ q, q ≠ p ∧
          (step (step st ev).2 CallFetchUser).1 = Handle q ∧
          userRef (step (step st ev).2 CallFetchUser).2 = Some q ∧
          is_pending (step (step st ev).2 CallFetchUser).2 q ∧
          requests_to "/api/users/me" (trace (step (step st ev).2 CallFetchUser).2)
          = S (requests_to "/api/users/me" (trace (step st ev).2)))).
Proof.
  intros Hreach. pose proof (reachable_inv _ Hreach) as Hinv. split.
  - intros Hu.
    assert (step st CallFetchUser
            = (Handle (next_pid st), (step st CallFetchUser).2)) as Hcall.
    { cbn [step]. unfold fetchUser. by rewrite Hu. }
    assert (userRef (step st CallFetchUser).2 = Some (next_pid st)) as Hu'.
    { cbn [step]. unfold fetchUser. by rewrite Hu. }
    assert (trace (step st CallFetchUser).2
            = trace st ++ [SetIsFetching true; Fetch (next_rid st) users_me]) as Htr.
    { cbn [step]. unfold fetchUser. rewrite Hu. simpl. by rewrite <- app_assoc. }
    assert (step (step st CallFetchUser).2 CallFetchUser
            = (Handle (next_pid st), (step st CallFetchUser).2)) as Hagain.
    { revert Hu'. generalize (step st CallFetchUser).2. intros s Hs.
      cbn [step]. by rewrite (fetchUser_same _ _ Hs). }
    split; [done |]. split; [done |]. split; [done |]. split.
    { cbn [step]. unfold fetchUser. rewrite Hu. simpl. apply lookup_insert_eq. }
    split; [done |].
    unfold run. cbn [foldl]. rewrite Hagain. cbn [snd]. rewrite Htr.
    rewrite requests_to_app. simpl. unfold requests_to. simpl. lia.
  - intros p Hu. pose proof (slot_lt _ _ Hinv Hu) as Hlt.
    pose proof (inv_slot _ Hinv _ Hu) as [Hpend Hparked].
    split; [done |].
    split; [cbn [step]; by rewrite (fetchUser_same _ _ Hu) |].
    split; [done |]. split; [| split; [| split]].
    + intros r res Hr Hres. cbn [step]. rewrite Hr. unfold resume_fetch.
      cbn [snd]. cbv zeta.
      destruct res as [e | resp]; [| rewrite (Hres resp eq_refl); cbn [negb]];
        match goal with
        | |- context [fetchUser_finally p ?o ?st0] =>
            destruct (fetchUser_finally_ends st st0 p o Hpend eq_refl eq_refl)
              as (? & ? & _)
        end; done.
    + intros r resp Hr Hok. cbn [step]. rewrite Hr. unfold resume_fetch.
      cbn [snd]. cbv zeta. rewrite Hok. cbn [negb]. simpl.
      split; [done | apply lookup_insert_eq].
    + intros r body Hr. cbn [step]. rewrite Hr. unfold resume_json.
      cbn [snd]. cbv zeta.
      destruct body as [v |];
        match goal with
        | |- context [fetchUser_finally p ?o ?st0] =>
            destruct (fetchUser_finally_ends st st0 p o Hpend eq_refl eq_refl)
              as (? & ? & _)
        end; done.
    + intros ev. pose proof (step_inv st ev Hinv) as Hinv'.
      destruct (user_op_step st p ev Hinv Hu)
        as [(Hu' & Hreq & _) | (Hu' & Hs & Hnp & _)].
      * left. split; [done |]. split; [apply (inv_slot _ Hinv' _ Hu') | done].
      * right. split; [done |]. split; [done |].
        exists (next_pid st). split; [lia |].
        cbn [step]. unfold fetchUser. rewrite Hu'. simpl. rewrite Hnp.
        split; [done |]. split; [done |]. split.
        -- exists []. simpl. apply lookup_insert_eq.
        -- rewrite !requests_to_snoc. simpl. lia.
Qed.

(** C2. The exchange slot is a latch.  In every reachable state at most one
    request has gone to the exchange endpoint; and once the slot holds a
    promise [e], then after any further events the slot still holds [e],
    exactly one exchange request has been sent, a call of
    [exchangeCodeForSessionToken] gives [e] back and changes nothing
    whatever the URL holds, and the outcome of [e], once there, is the
    same for good: [e] is never rejected. *)
Theorem exchange_at_most_once st :
  reachable st →
  requests_to "/api/sessions" (trace st) ≤ 1 ∧
  ∀ e, exchangeRef st = Some e →
    ∀ evs,
      exchangeRef (run st evs) = Some e ∧
      requests_to "/api/sessions" (trace (run st evs)) = 1 ∧
      (∀ code, step (run st evs) (CallExchange code) = (Handle e, run st evs)) ∧
      (∀ o, promises st !! e = Some (Settled o) →
            o = Fulfilled ∧ promises (run st evs) !! e = Some (Settled o)).
Proof.
  intros Hreach. pose proof (reachable_inv _ Hreach) as Hinv. split.
  - rewrite (inv_sessions _ Hinv). destruct (exchangeRef st); lia.
  - intros e He evs.
    pose proof (run_inv evs st Hinv) as Hinv'.
    destruct (mono_run evs st) as [_ M2 _ M4].
    pose proof (M4 e He) as He'.
    split; [done |]. split; [by rewrite (inv_sessions _ Hinv'), He' |].
    split.
    + intros code. cbn [step]. unfold exchangeCodeForSessionToken. by rewrite He'.
    + intros o Ho.
      assert (o = Fulfilled) as ->.
      { destruct (inv_exchange_promise _ Hinv e He) as [[ws Hws] | Hf]; congruence. }
      split; [done |].
      destruct (inv_exchange_promise _ Hinv' e He') as [[ws Hws] | Hf]; [| done].
      destruct (M2 e (inv_exchange _ Hinv e He)) as [o' Ho']; [by eexists |].
      congruence.
Qed.

(** C6. With no exchange started and no [code] parameter in the URL, a call
    of [exchangeCodeForSessionToken] throws at its caller and leaves the
    provider as it was: no promise is made and no request is issued. *)
Theorem exchange_without_code_throws st :
  exchangeRef st = None →
  step st (CallExchange None) = (Thrown no_code_error, st) ∧
  trace (step st (CallExchange None)).2 = trace st.
Proof.
  intros Hx. cbn [step]. unfold exchangeCodeForSessionToken. by rewrite Hx.
Qed.

(** C10. Once an exchange has been started, a call of
    [exchangeCodeForSessionToken] gives back the stored promise and leaves
    the provider as it was whatever [urlParams.get('code')] would give: the
    parameter is not looked at, and the call does not throw when it is
    missing. *)
Theorem exchange_started_ignores_url st p :
  exchangeRef st = Some p →
  ∀ code, step st (CallExchange code) = (Handle p, st).
Proof.
  intros Hx code. cbn [step]. unfold exchangeCodeForSessionToken. by rewrite Hx.
Qed.

(** The stored user is written in two places only: by [logout], and by a
    user fetch whose response was a success and whose body parsed. *)
Lemma user_writers st ev :
  user (step st ev).2 = user st ∨
  ev = CallLogout ∧ user (step st ev).2 = JNull ∨
  ∃ r p v, ev = JsonSettles r ∧
           inflight st !! r = Some (UserAwaitsJson p (Some v)) ∧
           user (step st ev).2 = v.
Proof.
  assert (∀ st0, user (fetchUser st0).2 = user st0) as Hf.
  { intros st0. unfold fetchUser. by destruct (userRef st0). }
  assert (∀ q w st0, user (attach q w st0) = user st0) as Ha.
  { intros q w st0. unfold attach.
    destruct (promises st0 !! q) as [[ws | o] |]; try done.
    apply (fr_user _ _ (frame_run_waiter o st0 w)). }
  destruct ev as [| | | | code | r res | r]; cbn [step].
  - left. unfold mount. pose proof (Hf st). destruct (fetchUser st) as [p st1].
    cbv beta iota. cbn [snd]. by rewrite Ha.
  - left. pose proof (Hf st). by destruct (fetchUser st).
  - right. left. done.
  - left. done.
  - left. unfold exchangeCodeForSessionToken. destruct (exchangeRef st); [done |].
    destruct code as [c |]; [| done]. by destruct (String.eqb c "").
  - left. destruct (inflight st !! r) as [k |]; [| done].
    destruct k as [q | q b | q | q | q b | q]; try done;
      unfold resume_fetch, fetchUser_finally; cbn [snd]; cbv zeta;
      destruct res as [e | resp]; try destruct (ok resp); cbn [negb];
      rewrite ?(fr_user _ _ (frame_settle _ _ _)); try done.
    pose proof (Hf (set_inflight (delete r (inflight st)) st)).
    destruct (fetchUser _) as [p st1]. cbv beta iota. cbn [snd]. by rewrite Ha.
  - destruct (inflight st !! r) as [k |] eqn:Hr; [| by left].
    destruct k as [q | q b | q | q | q b | q]; try (by left);
      unfold resume_json, fetchUser_finally; cbn [snd]; cbv zeta.
    + destruct b as [v |].
      * right. right. exists r, q, v. split; [done |]. split; [done |].
        by rewrite (fr_user _ _ (frame_settle _ _ _)).
      * left. by rewrite (fr_user _ _ (frame_settle _ _ _)).
    + left. destruct b as [v |]; [destruct (destructure v "redirectUrl") |]; done.
Qed.

(** While no user fetch stores a record, a user that is null stays null. *)
Lemma no_user_stored_run evs : ∀ st,
  user st = JNull → no_user_stored st evs = true → user (run st evs) = JNull.
Proof.
  induction evs as [| ev evs IH]; intros st Hnull Hno; [done |].
  cbn [no_user_stored] in Hno. apply andb_prop in Hno as [Hev Hno].
  apply (IH (step st ev).2); [| done].
  destruct (user_writers st ev) as [-> | [[_ ->] | (r & q & v & -> & Hr & _)]];
    [done | done |].
  cbn [stores_user] in Hev. by rewrite Hr in Hev.
Qed.

(** A parked body of [logout] stays parked, under the same request, until
    that request settles. *)
Lemma logout_stays_parked st ev r p :
  inv st → inflight st !! r = Some (LogoutAwaitsFetch p) →
  (∀ res, ev ≠ FetchSettles r res) →
  inflight (step st ev).2 !! r = Some (LogoutAwaitsFetch p).
Proof.
  intros Hinv Hr Hev. pose proof (inv_parked _ Hinv _ _ Hr) as [Hlt _].
  assert (∀ st0, inflight st0 !! r = Some (LogoutAwaitsFetch p) →
                 r < next_rid st0 →
                 inflight (fetchUser st0).2 !! r = Some (LogoutAwaitsFetch p)) as Hf.
  { intros st0 H0 Hlt0. unfold fetchUser. destruct (userRef st0); [done |].
    simpl. rewrite lookup_insert_ne; [done | lia]. }
  assert (∀ q w st0, inflight (attach q w st0) = inflight st0) as Ha.
  { intros q w st0. unfold attach.
    destruct (promises st0 !! q) as [[ws | o] |]; try done.
    apply (fr_inflight _ _ (frame_run_waiter o st0 w)). }
  destruct ev as [| | | | code | r' res | r']; cbn [step].
  - unfold mount. pose proof (Hf st Hr Hlt). destruct (fetchUser st) as [q st1].
    cbv beta iota. cbn [snd] in *. by rewrite Ha.
  - pose proof (Hf st Hr Hlt). by destruct (fetchUser st).
  - simpl. rewrite lookup_insert_ne; [done | lia].
  - simpl. rewrite lookup_insert_ne; [done | lia].
  - unfold exchangeCodeForSessionToken. destruct (exchangeRef st); [done |].
    destruct code as [c |]; [| done]. destruct (String.eqb c ""); [done |].
    simpl. rewrite lookup_insert_ne; [done | lia].
  - assert (r' ≠ r) as Hne by (intros ->; by apply (Hev res)).
    destruct (inflight st !! r') as [k |] eqn:Hr'; [| done].
    pose proof (inv_parked _ Hinv _ _ Hr') as [Hlt' _].
    assert (inflight (set_inflight (delete r' (inflight st)) st) !! r
            = Some (LogoutAwaitsFetch p)) as Hd.
    { simpl. by rewrite lookup_delete_ne. }
    destruct k as [q | q b | q | q | q b | q]; try done;
      unfold resume_fetch, fetchUser_finally; cbn [snd]; cbv zeta;
      destruct res as [e | resp]; try destruct (ok resp); cbn [negb];
      rewrite ?(fr_inflight _ _ (frame_settle _ _ _)); try done;
      try (simpl; rewrite lookup_insert_ne; [by rewrite lookup_delete_ne | done]).
    pose proof (Hf (set_inflight (delete r' (inflight st)) st) Hd Hlt) as Hf'.
    destruct (fetchUser _) as [q' st1]. cbv beta iota. cbn [snd] in *.
    by rewrite Ha.
  - destruct (decide (r' = r)) as [-> | Hne]; [by rewrite Hr |].
    destruct (inflight st !! r') as [k |] eqn:Hr'; [| done].
    assert (inflight (set_inflight (delete r' (inflight st)) st) !! r
            = Some (LogoutAwaitsFetch p)) as Hd.
    { simpl. by rewrite lookup_delete_ne. }
    destruct k as [q | q b | q | q | q b | q]; try done;
      unfold resume_json, fetchUser_finally, finish; cbn [snd]; cbv zeta;
      destruct b as [v |]; try destruct (destructure v "redirectUrl");
      rewrite ?(fr_inflight _ _ (frame_settle _ _ _)); done.
Qed.

Lemma logout_stays_parked_run r p evs : ∀ st,
  inv st → inflight st !! r = Some (LogoutAwaitsFetch p) →
  (∀ res, FetchSettles r res ∉ evs) →
  inflight (run st evs) !! r = Some (LogoutAwaitsFetch p).
Proof.
  induction evs as [| ev evs IH]; intros st Hinv Hr Hev; [done |].
  apply (IH (step st ev).2).
  - by apply step_inv.
  - apply logout_stays_parked; [done | done |].
    intros res ->. apply (Hev res). apply list_elem_of_here.
  - intros res Hin. apply (Hev res). by apply list_elem_of_further.
Qed.

(** C7, amended.  [logout] sets the user to null and then sends the
    request, in that order, and hands back a promise without throwing.
    Its body stays parked until that request settles; when it settles,
    whatever the state then is and whether the request succeeded or the
    transport failed, the user is left as it is, the promise of [logout]
    is fulfilled and no request is sent again.  Nothing writes the user
    except another [logout] and a user fetch that succeeds.  So: from a
    state a mounted provider can reach, if between the call of [logout]
    and the settling of its request no user fetch stores a record, the
    user is null all along and is null once [logout] has settled,
    succeeded or not. *)
Theorem logout_locally_effective st :
  let p := next_pid st in
  let r := next_rid st in
  step st CallLogout
  = (Handle p, (step st CallLogout).2) ∧
  user (step st CallLogout).2 = JNull ∧
  trace (step st CallLogout).2 = trace st ++ [SetUser JNull; Fetch r logout_req] ∧
  inflight (step st CallLogout).2 !! r = Some (LogoutAwaitsFetch p) ∧
  (∀ st' res, inflight st' !! r = Some (LogoutAwaitsFetch p) →
     user (step st' (FetchSettles r res)).2 = user st' ∧
     promises (step st' (FetchSettles r res)).2 !! p = Some (Settled Fulfilled) ∧
     requests_to "/api/logout" (trace (step st' (FetchSettles r res)).2)
     = requests_to "/api/logout" (trace st')) ∧
  (∀ res, user (step (step st CallLogout).2 (FetchSettles r res)).2 = JNull) ∧
  (∀ st' ev,
     user (step st' ev).2 = user st' ∨
     ev = CallLogout ∧ user (step st' ev).2 = JNull ∨
     ∃ r' q v, ev = JsonSettles r' ∧
               inflight st' !! r' = Some (UserAwaitsJson q (Some v)) ∧
               user (step st' ev).2 = v) ∧
  (reachable st →
   ∀ evs, (∀ res, FetchSettles r res ∉ evs) →
     inflight (run (step st CallLogout).2 evs) !! r = Some (LogoutAwaitsFetch p) ∧
     (no_user_stored (step st CallLogout).2 evs = true →
      user (run (step st CallLogout).2 evs) = JNull ∧
      ∀ res,
        user (step (run (step st CallLogout).2 evs) (FetchSettles r res)).2 = JNull ∧
        promises (step (run (step st CallLogout).2 evs) (FetchSettles r res)).2 !! p
        = Some (Settled Fulfilled))).
Proof.
  intros p r. split; [done |]. split; [done |].
  split; [simpl; by rewrite <- app_assoc |].
  assert (inflight (step st CallLogout).2 !! r = Some (LogoutAwaitsFetch p)) as Hparked.
  { simpl. apply lookup_insert_eq. }
  split; [done |].
  assert (∀ st' res, inflight st' !! r = Some (LogoutAwaitsFetch p) →
     user (step st' (FetchSettles r res)).2 = user st' ∧
     promises (step st' (FetchSettles r res)).2 !! p = Some (Settled Fulfilled) ∧
     requests_to "/api/logout" (trace (step st' (FetchSettles r res)).2)
     = requests_to "/api/logout" (trace st')) as Hsettle.
  { intros st' res Hr. cbn [step]. rewrite Hr. unfold resume_fetch.
    destruct res as [e | resp]; simpl; rewrite ?requests_to_snoc, lookup_insert_eq;
      simpl; rewrite ?Nat.add_0_r; done. }
  split; [exact Hsettle |]. split; [| split; [apply user_writers |]].
  { intros res. by destruct (Hsettle (step st CallLogout).2 res Hparked) as [-> _]. }
  intros Hreach evs Hev.
  pose proof (step_inv st CallLogout (reachable_inv _ Hreach)) as Hinv.
  pose proof (logout_stays_parked_run r p evs _ Hinv Hparked Hev) as Hstill.
  split; [done |]. intros Hno.
  pose proof (no_user_stored_run evs (step st CallLogout).2 eq_refl Hno) as Hnull.
  split; [done |]. intros res.
  destruct (Hsettle _ res Hstill) as (-> & Hful & _). done.
Qed.

(** C9. The mount effect makes one call of [fetchUser] and attaches its two
    callbacks to the promise [p] it gets; [isPending] is still true then,
    [p] sits in the slot, and nothing was sent beyond what that call of
    [fetchUser] sent: in a fresh provider, the one request.  From any
    reachable state in which [isPending] is still true, and after any
    further events: [isPending] is true exactly while [p] is pending and
    false exactly once [p] has settled; and each ending of the fetch makes
    it false: a rejected [fetch] or a response that is not a success, and
    the reading of the body of a success response, whether it parsed (the
    record is then the user) or not. *)
Theorem mount_resolves_pending st :
  reachable st → isPending st = true →
  mount st = attach (fetchUser st).1 MountThen (fetchUser st).2 ∧
  trace (mount init) = [SetIsFetching true; Fetch 0 users_me] ∧
  isPending (mount st) = true ∧
  userRef (mount st) = Some (fetchUser st).1 ∧
  trace (mount st) = trace (fetchUser st).2 ∧
  ∀ evs,
    (isPending (run (mount st) evs) = true
     ↔ is_pending (run (mount st) evs) (fetchUser st).1) ∧
    (isPending (run (mount st) evs) = false
     ↔ is_settled (run (mount st) evs) (fetchUser st).1) ∧
    (∀ r res,
       inflight (run (mount st) evs) !! r = Some (UserAwaitsFetch (fetchUser st).1) →
       (∀ resp, res = FetchResolved resp → ok resp = false) →
       isPending (step (run (mount st) evs) (FetchSettles r res)).2 = false) ∧
    (∀ r body,
       inflight (run (mount st) evs) !! r
       = Some (UserAwaitsJson (fetchUser st).1 body) →
       isPending (step (run (mount st) evs) (JsonSettles r)).2 = false ∧
       ∀ v, body = Some v → user (step (run (mount st) evs) (JsonSettles r)).2 = v).
Proof.
  intros Hreach Hpend. pose proof (reachable_inv _ Hreach) as Hinv.
  split; [unfold mount; by destruct (fetchUser st) |]. split; [done |].
  assert (∃ ws, mount st
                = set_promise (fetchUser st).1 (Pending (ws ++ [MountThen]))
                    (fetchUser st).2) as [ws Hmount].
  { destruct (inv_slot _ (fetchUser_inv st Hinv) _ (fetchUser_slot st))
      as ([ws Hws] & _).
    exists ws. rewrite <- (attach_pending _ _ _ _ Hws).
    unfold mount. by destruct (fetchUser st). }
  split; [rewrite Hmount; simpl; by rewrite fetchUser_isPending |].
  split; [rewrite Hmount; simpl; apply fetchUser_slot |].
  split; [by rewrite Hmount |].
  intros evs.
  pose proof (run_inv evs _ (mount_inv _ Hinv)) as Hinv'.
  pose proof (mounted_run _ evs _ (mount_inv _ Hinv) (mounted_mount _ Hinv Hpend))
    as Hm.
  revert Hinv' Hm. generalize (run (mount st) evs). generalize (fetchUser st).1.
  intros p s Hinv' Hm.
  split; [| split; [| split]].
  - destruct Hm as [_ [((ws' & Hws & _) & Hp & _) | [[o Ho] Hp]]];
      unfold is_pending; rewrite Hp; split; try done.
    + intros _. by exists ws'.
    + intros [ws' Hws]. congruence.
  - destruct Hm as [_ [((ws' & Hws & _) & Hp & _) | [[o Ho] Hp]]];
      unfold is_settled; rewrite Hp; split; try done.
    + intros [o Ho]. congruence.
    + intros _. by exists o.
  - intros r res Hr Hres.
    pose proof (inv_user_cont _ Hinv' _ _ Hr eq_refl) as Hu. simpl in Hu.
    destruct (inv_slot _ Hinv' _ Hu) as [Hp _].
    destruct Hm as [_ [((ws' & Hws & Hin) & _ & _) | [[o Ho] _]]];
      [| destruct Hp; congruence].
    cbn [step]. rewrite Hr. unfold resume_fetch. cbn [snd]. cbv zeta.
    destruct res as [e | resp]; [| rewrite (Hres resp eq_refl); cbn [negb]];
      match goal with
      | |- context [fetchUser_finally p ?o ?st0] =>
          destruct (fetchUser_finally_ends s st0 p o Hp eq_refl eq_refl)
            as (_ & _ & _ & Hend)
      end; exact (Hend ws' Hws Hin).
  - intros r body Hr.
    pose proof (inv_user_cont _ Hinv' _ _ Hr eq_refl) as Hu. simpl in Hu.
    destruct (inv_slot _ Hinv' _ Hu) as [Hp _].
    destruct Hm as [_ [((ws' & Hws & Hin) & _ & _) | [[o Ho] _]]];
      [| destruct Hp; congruence].
    cbn [step]. rewrite Hr. unfold resume_json. cbn [snd]. cbv zeta.
    destruct body as [v |]; (split; [| intros v' Hv; inversion Hv; subst]).
    + match goal with
      | |- context [fetchUser_finally p ?o ?st0] =>
          destruct (fetchUser_finally_ends s st0 p o Hp eq_refl eq_refl)
            as (_ & _ & _ & Hend)
      end; exact (Hend ws' Hws Hin).
    + unfold fetchUser_finally. by rewrite (fr_user _ _ (frame_settle _ _ _)).
    + match goal with
      | |- context [fetchUser_finally p ?o ?st0] =>
          destruct (fetchUser_finally_ends s st0 p o Hp eq_refl eq_refl)
            as (_ & _ & _ & Hend)
      end; exact (Hend ws' Hws Hin).
Qed.

End ProviderFacts.

(** *** The [loadUser] revision *)

Section LoadUserFacts.

Import LoadUserProvider.

Lemma loadUser_run_waiters_keep o ws : ∀ st,
  user (foldl (run_waiter o) st ws) = user st ∧
  userRef (foldl (run_waiter o) st ws) = userRef st ∧
  exchangeRef (foldl (run_waiter o) st ws) = exchangeRef st.
Proof.
  induction ws as [| w ws IH]; intros st; [done |].
  cbn [foldl]. destruct (IH (run_waiter o st w)) as (-> & -> & ->).
  by destruct w, o.
Qed.

Lemma loadUser_settle_keep p o st :
  user (settle p o st) = user st ∧
  userRef (settle p o st) = userRef st ∧
  exchangeRef (settle p o st) = exchangeRef st.
Proof.
  unfold settle. destruct (promises st !! p) as [[ws | o'] |]; try done.
  by destruct (loadUser_run_waiters_keep o ws (set_promise p (Settled o) st))
    as (-> & -> & ->).
Qed.

Lemma loadUser_attach_keep p w st :
  user (attach p w st) = user st ∧
  userRef (attach p w st) = userRef st ∧
  exchangeRef (attach p w st) = exchangeRef st.
Proof.
  unfold attach. destruct (promises st !! p) as [[ws | o] |]; try done.
  destruct w as [e]. by destruct o.
Qed.

(** With [loadUser], a user fetch that fails, by a response that is not a
    success or by a transport failure, sets the user to null. *)
Lemma loadUser_failure_stores_null st r p res :
  inflight st !! r = Some (UserAwaitsFetch p) →
  (∀ resp, res = FetchResolved resp → ok resp = false) →
  user (step st (FetchSettles r res)).2 = JNull.
Proof.
  intros Hr Hres. cbn [step]. rewrite Hr. unfold resume_fetch, loadUser_catch.
  destruct res as [e | resp]; cbn [snd].
  - by destruct (loadUser_settle_keep p Fulfilled
      (setUser JNull (console_error "Failed to fetch user:" e
         (set_inflight (delete r (inflight st)) st)))) as (-> & _).
  - rewrite (Hres resp eq_refl).
    by destruct (loadUser_settle_keep p Fulfilled
      (setUser JNull (set_inflight (delete r (inflight st)) st))) as (-> & _).
Qed.

(** With [loadUser], a user fetch that succeeds stores the body of the
    response. *)
Lemma loadUser_success_stores_body st r p userData :
  inflight st !! r = Some (UserAwaitsJson p (Some userData)) →
  user (step st (JsonSettles r)).2 = userData.
Proof.
  intros Hr. cbn [step]. rewrite Hr. unfold resume_json. cbn [snd].
  by destruct (loadUser_settle_keep p Fulfilled
    (setUser userData (set_inflight (delete r (inflight st)) st))) as (-> & _).
Qed.

(** The slot of [loadUser] is never emptied: once a user fetch has been
    started, every later call gives its promise back and sends nothing. *)
Lemma loadUser_slot_kept st p ev :
  userRef st = Some p →
  userRef (step st ev).2 = Some p ∧
  step (step st ev).2 CallFetchUser = (Handle p, (step st ev).2).
Proof.
  intros Hu.
  assert (userRef (step st ev).2 = Some p) as Hu'.
  { destruct ev as [| | | | code | r res | r]; cbn [step]; try done.
    - unfold loadUser. by rewrite Hu.
    - unfold exchangeCodeForSessionToken. destruct (exchangeRef st); [done |].
      destruct code as [c |]; [| done]. by destruct (String.eqb c "").
    - destruct (inflight st !! r) as [k |]; [| done].
      destruct k as [q | q b | q | q | q b | q]; try done;
        unfold resume_fetch, loadUser_catch; cbn [snd]; cbv zeta;
        destruct res as [e | resp]; try destruct (ok resp); cbn [negb]; try done;
        rewrite ?(proj1 (proj2 (loadUser_settle_keep _ _ _))); try done.
      unfold loadUser. cbn [userRef set_inflight]. rewrite Hu.
      by rewrite (proj1 (proj2 (loadUser_attach_keep _ _ _))).
    - destruct (inflight st !! r) as [k |]; [| done].
      destruct k as [q | q b | q | q | q b | q]; try done;
        unfold resume_json, loadUser_catch; cbn [snd]; cbv zeta.
      + destruct b; by rewrite (proj1 (proj2 (loadUser_settle_keep _ _ _))).
      + destruct b as [v |]; [destruct (destructure v "redirectUrl") |]; done. }
  split; [done |]. cbn [step]. unfold loadUser. by rewrite Hu'.
Qed.

(** The exchange and [logout] read as in the other revision. *)
Lemma loadUser_provider_exchange st :
  (exchangeRef st = None →
     step st (CallExchange None) = (Thrown no_code_error, st)) ∧
  (∀ p code, exchangeRef st = Some p →
     step st (CallExchange code) = (Handle p, st)).
Proof.
  split.
  - intros Hx. cbn [step]. unfold exchangeCodeForSessionToken. by rewrite Hx.
  - intros p code Hx. cbn [step]. unfold exchangeCodeForSessionToken. by rewrite Hx.
Qed.

Lemma loadUser_provider_logout st :
  user (step st CallLogout).2 = JNull ∧
  trace (step st CallLogout).2
  = trace st ++ [SetUser JNull; Fetch (next_rid st) logout_req] ∧
  ∀ st' res, inflight st' !! next_rid st = Some (LogoutAwaitsFetch (next_pid st)) →
    user (step st' (FetchSettles (next_rid st) res)).2 = user st' ∧
    promises (step st' (FetchSettles (next_rid st) res)).2 !! next_pid st
    = Some (Settled Fulfilled).
Proof.
  split; [done |]. split; [simpl; by rewrite <- app_assoc |].
  intros st' res Hr. cbn [step]. rewrite Hr. unfold resume_fetch.
  destruct res as [e | resp]; simpl; by rewrite lookup_insert_eq.
Qed.

End LoadUserFacts.

(** *** The stored user after a failed fetch *)

Section StoredUser.

Import Provider ProviderInv Samples.

(** A user fetch that succeeds stores the body of the response. *)
Lemma fetchUser_success_stores_body st r p v :
  inflight st !! r = Some (UserAwaitsJson p (Some v)) →
  user (step st (JsonSettles r)).2 = v.
Proof.
  intros Hr. cbn [step]. rewrite Hr. unfold resume_json, fetchUser_finally.
  cbn [snd]. by rewrite (fr_user _ _ (frame_settle _ _ _)).
Qed.

(** A user fetch that fails leaves the stored user as it was. *)
Lemma fetchUser_failure_keeps_user st r p res :
  inflight st !! r = Some (UserAwaitsFetch p) →
  (∀ resp, res = FetchResolved resp → ok resp = false) →
  user (step st (FetchSettles r res)).2 = user st.
Proof.
  intros Hr Hres. cbn [step]. rewrite Hr. unfold resume_fetch, fetchUser_finally.
  destruct res as [e | resp]; cbn [snd].
  - by rewrite (fr_user _ _ (frame_settle _ _ _)).
  - rewrite (Hres resp eq_refl). cbn [negb].
    by rewrite (fr_user _ _ (frame_settle _ _ _)).
Qed.

(** C5, on the code.  The provider mounts and its first fetch gives the
    record [ada]; [fetchUser] is called again and this time the endpoint
    answers 401, or the transport fails.  The second fetch has completed,
    rejected, the slot is empty again, and the stored user is still [ada],
    not null. *)
Theorem fetchUser_failure_leaves_stale_user :
  let evs := [Mount; FetchSettles 0 (ok_json ada); JsonSettles 0; CallFetchUser] in
  user (run init evs) = ada ∧
  user (run init (evs ++ [FetchSettles 1 unauthorized])) = ada ∧
  promises (run init (evs ++ [FetchSettles 1 unauthorized])) !! 1
  = Some (Settled (Rejected (fetch_user_failed 401))) ∧
  userRef (run init (evs ++ [FetchSettles 1 unauthorized])) = None ∧
  user (run init (evs ++ [FetchSettles 1 network_down])) = ada ∧
  promises (run init (evs ++ [FetchSettles 1 network_down])) !! 1
  = Some (Settled (Rejected (TypeError "Failed to fetch"))) ∧
  userRef (run init (evs ++ [FetchSettles 1 network_down])) = None.
Proof. vm_compute. repeat split. Qed.

End StoredUser.

(** ** Witnesses *)

Section Witnesses.

Import Backend Provider ProviderInv Samples.

Lemma getCurrentUser_never_raises_witness :
  getCurrentUser directory "tok_1" options
  = ([users_me_request "tok_1" options], Return ada) ∧
  getCurrentUser refusing "tok_1" options
  = ([users_me_request "tok_1" options], Return JNull) ∧
  getCurrentUser unreachable "tok_1" options
  = ([users_me_request "tok_1" options], Return JNull).
Proof.
  split; [| split].
  - eapply (proj2 (proj2 (proj2 (getCurrentUser_never_raises directory "tok_1" options))));
      reflexivity.
  - eapply (proj1 (proj2 (proj2 (getCurrentUser_never_raises refusing "tok_1" options))));
      reflexivity.
  - eapply (proj1 (proj2 (getCurrentUser_never_raises unreachable "tok_1" options)));
      reflexivity.
Defined.

Lemma authMiddleware_gate_witness :
  authMiddleware directory (context None) handler
  = ([], Return (JsonResponse (JObj [("error", JStr "Unauthorized")]) 401)) ∧
  authMiddleware directory (context (Some "tok_0")) handler
  = ([users_me_request "tok_0" options],
     Throw (HTTPException 401 "Invalid session token")) ∧
  authMiddleware directory (context (Some "tok_1")) handler
  = ([users_me_request "tok_1" options], Return Passed) ∧
  vars (c_set "user" ada (context (Some "tok_1"))) !! "user" = Some ada.
Proof.
  split; [| split; [| split]].
  - apply (proj1 (authMiddleware_gate directory (context None) handler)).
    reflexivity.
  - apply (proj1 (proj1 (proj2 (authMiddleware_gate directory
                                  (context (Some "tok_0")) handler))
                   "tok_0" eq_refl JNull eq_refl)).
    reflexivity.
  - exact (proj2 (proj2 (proj1 (proj2 (authMiddleware_gate directory
                                         (context (Some "tok_1")) handler))
                          "tok_1" eq_refl ada eq_refl) eq_refl)).
  - exact (proj1 (proj2 (proj1 (proj2 (authMiddleware_gate directory
                                         (context (Some "tok_1")) handler))
                          "tok_1" eq_refl ada eq_refl) eq_refl)).
Defined.


Lemma fetchUser_single_flight_witness :
  requests_to "/api/users/me" (trace (run init [CallFetchUser; CallFetchUser]))
  = S (requests_to "/api/users/me" (trace init)) ∧
  step (run init [Mount]) CallFetchUser = (Handle 0, run init [Mount]) ∧
  (userRef (step (run init [Mount]) (FetchSettles 0 unauthorized)).2 = None ∧
   is_settled (step (run init [Mount]) (FetchSettles 0 unauthorized)).2 0) ∧
  (userRef (step (run init [Mount; FetchSettles 0 (ok_json ada)]) (JsonSettles 0)).2
   = None ∧
   is_settled (step (run init [Mount; FetchSettles 0 (ok_json ada)]) (JsonSettles 0)).2 0).
Proof.
  split; [| split; [| split]].
  - refine (proj2 (proj2 (proj2 (proj2 (proj2
      (proj1 (fetchUser_single_flight init (ex_intro _ [] eq_refl)) _)))))).
    reflexivity.
  - refine (proj1 (proj2
      (proj2 (fetchUser_single_flight (run init [Mount]) (ex_intro _ [Mount] eq_refl))
         0 _))).
    vm_compute. reflexivity.
  - refine (proj1 (proj2 (proj2 (proj2
      (proj2 (fetchUser_single_flight (run init [Mount]) (ex_intro _ [Mount] eq_refl))
         0 _)))) 0 unauthorized _ _).
    + vm_compute. reflexivity.
    + vm_compute. reflexivity.
    + intros resp [= <-]. reflexivity.
  - refine (proj1 (proj2 (proj2 (proj2 (proj2 (proj2
      (proj2 (fetchUser_single_flight (run init [Mount; FetchSettles 0 (ok_json ada)])
                (ex_intro _ [Mount; FetchSettles 0 (ok_json ada)] eq_refl))
         0 _)))))) 0 (Some ada) _).
    + vm_compute. reflexivity.
    + vm_compute. reflexivity.
Defined.

Lemma exchange_at_most_once_witness :
  requests_to "/api/sessions"
    (trace (run (run init [CallExchange (Some "abc123")])
              [FetchSettles 0 unauthorized; CallExchange (Some "abc123")])) = 1.
Proof.
  refine (proj1 (proj2 (proj2
    (exchange_at_most_once (run init [CallExchange (Some "abc123")])
       (ex_intro _ [CallExchange (Some "abc123")] eq_refl))
    0 _ [FetchSettles 0 unauthorized; CallExchange (Some "abc123")]))).
  vm_compute. reflexivity.
Defined.

Lemma exchange_without_code_throws_witness :
  step init (CallExchange None) = (Thrown no_code_error, init).
Proof. apply (exchange_without_code_throws init). reflexivity. Defined.

Lemma exchange_started_ignores_url_witness :
  step (run init [CallExchange (Some "abc123")]) (CallExchange None)
  = (Handle 0, run init [CallExchange (Some "abc123")]).
Proof.
  apply (exchange_started_ignores_url (run init [CallExchange (Some "abc123")]) 0).
  vm_compute. reflexivity.
Defined.

Lemma logout_locally_effective_witness :
  let st := run init [Mount; FetchSettles 0 (ok_json ada); JsonSettles 0;
                      CallFetchUser] in
  user (step (run (step st CallLogout).2 [FetchSettles 1 unauthorized])
          (FetchSettles (next_rid st) network_down)).2 = JNull.
Proof.
  intros st.
  refine (proj1 (proj2 (proj2
    (proj2 (proj2 (proj2 (proj2 (proj2 (proj2 (proj2
       (logout_locally_effective st)))))))
       (ex_intro _ [Mount; FetchSettles 0 (ok_json ada); JsonSettles 0; CallFetchUser]
          eq_refl)
       [FetchSettles 1 unauthorized] _) _) network_down)).
  - intros res Hin. apply list_elem_of_singleton in Hin. discriminate Hin.
  - vm_compute. reflexivity.
Defined.

(** C7 as first stated does not hold: [logout] is called while the
    mount-time user fetch is outstanding, that fetch then stores the record
    it got, and when the logout request has settled (here by a transport
    failure) and the promise of [logout] is fulfilled, the user is that
    record, not null. *)
Lemma logout_race_counterexample :
  (step (run init [Mount]) CallLogout).1 = Handle 1 ∧
  promises (run init Scenarios.logout_during_fetch) !! 1 = Some (Settled Fulfilled) ∧
  inflight (run init Scenarios.logout_during_fetch) !! 1 = None ∧
  user (run init Scenarios.logout_during_fetch) = ada ∧
  user (run init Scenarios.logout_during_fetch) ≠ JNull.
Proof.
  split; [vm_compute; reflexivity |]. split; [vm_compute; reflexivity |].
  split; [vm_compute; reflexivity |]. split; [vm_compute; reflexivity |].
  vm_compute. discriminate.
Qed.

Lemma mount_resolves_pending_witness :
  isPending (mount init) = true ∧
  isPending (step (run (mount init) []) (FetchSettles 0 unauthorized)).2 = false ∧
  isPending (step (run (mount init) [FetchSettles 0 (ok_json ada)]) (JsonSettles 0)).2
  = false.
Proof.
  split; [| split].
  - exact (proj1 (proj2 (proj2 (mount_resolves_pending init
             (ex_intro _ [] eq_refl) eq_refl)))).
  - refine (proj1 (proj2 (proj2
      (proj2 (proj2 (proj2 (proj2 (proj2
         (mount_resolves_pending init (ex_intro _ [] eq_refl) eq_refl)))))
         []))) 0 unauthorized _ _).
    + vm_compute. reflexivity.
    + intros resp [= <-]. reflexivity.
  - refine (proj1 (proj2 (proj2 (proj2
      (proj2 (proj2 (proj2 (proj2 (proj2
         (mount_resolves_pending init (ex_intro _ [] eq_refl) eq_refl)))))
         [FetchSettles 0 (ok_json ada)]))) 0 (Some ada) _)).
    vm_compute. reflexivity.
Defined.

End Witnesses.

(** * Further properties *)

(** ** The session client *)

Section BackendMore.

Import Backend.

Variable net : request → fetch_result.



(** X2. The two functions the caller must react to let a transport failure
    through: when [fetch] rejects, [getOAuthRedirectUrl] (for a supported
    provider) and [exchangeCodeForSessionToken] fail with that very error
    after their one request; so do they, with a [SyntaxError], on a success
    response whose body is not JSON, and with a [TypeError] when the body
    is null. *)
Theorem write_paths_surface_failures provider code options :
  includes SUPPORTED_OAUTH_PROVIDERS provider = true →
  (∀ e, net (redirect_url_request provider options) = FetchRejected e →
     getOAuthRedirectUrl net provider options
     = ([redirect_url_request provider options], Throw e)) ∧
  (∀ e, net (sessions_request (JStr code) options) = FetchRejected e →
     exchangeCodeForSessionToken net code options
     = ([sessions_request (JStr code) options], Throw e)) ∧
  (∀ r, net (redirect_url_request provider options) = FetchResolved r →
     ok r = true →
     (json_body r = None →
      ∃ msg, getOAuthRedirectUrl net provider options
             = ([redirect_url_request provider options], Throw (SyntaxError msg))) ∧
     (json_body r = Some JNull →
      ∃ msg, getOAuthRedirectUrl net provider options
             = ([redirect_url_request provider options], Throw (TypeError msg)))) ∧
  (∀ r, net (sessions_request (JStr code) options) = FetchResolved r →
     ok r = true →
     (json_body r = None →
      ∃ msg, exchangeCodeForSessionToken net code options
             = ([sessions_request (JStr code) options], Throw (SyntaxError msg))) ∧
     (json_body r = Some JNull →
      ∃ msg, exchangeCodeForSessionToken net code options
             = ([sessions_request (JStr code) options], Throw (TypeError msg)))).
Proof.
  intros Hsup. unfold getOAuthRedirectUrl, exchangeCodeForSessionToken.
  rewrite Hsup. unfold bind, fetch, json. simpl.
  split; [by intros e -> |]. split; [by intros e -> |].
  split; intros r Hn Hok; (split; intros Hb; rewrite Hn, Hok, Hb; simpl; eauto).
Qed.



(** ** The request authenticator *)

(** A truthy result of [getCurrentUser] is the [data] field of the body
    of a success response. *)
Lemma getCurrentUser_truthy sessionToken options reqs v :
  getCurrentUser net sessionToken options = (reqs, Return v) →
  truthy v = true →
  ∃ r body,
    net (users_me_request sessionToken options) = FetchResolved r ∧
    ok r = true ∧ json_body r = Some body ∧ v = get_prop body "data".
Proof.
  unfold getCurrentUser, try_catch, bind, fetch, json, lift, destructure, ret, throw.
  destruct (net _) as [e | r]; simpl.
  - by intros [= _ <-].
  - destruct (ok r) eqn:Hok; simpl; [| by intros [= _ <-]].
    destruct (json_body r) as [body |] eqn:Hb; simpl; [| by intros [= _ <-]].
    intros H Ht. exists r, body. do 3 (split; [done |]).
    destruct body; simpl in H; injection H as _ <-; done.
Qed.

(** X5. The gate lets a request through only on the directory's word: if
    [authMiddleware] ends with [Passed], then the request carried the
    session cookie, the directory answered the lookup made with that
    cookie's value as bearer token with a success, and the [data] field of
    its JSON body is the truthy value now found under [user]. *)
Theorem authMiddleware_sound (c : HonoContext) (next : HonoContext → IO unit) reqs :
  authMiddleware net c next = (reqs, Return Passed) →
  ∃ sessionToken r body,
    getCookie c MOCHA_SESSION_TOKEN_COOKIE_NAME = Some sessionToken ∧
    net (users_me_request sessionToken (env_options c)) = FetchResolved r ∧
    ok r = true ∧ json_body r = Some body ∧
    truthy (get_prop body "data") = true ∧
    reqs = users_me_request sessionToken (env_options c)
           :: (next (c_set "user" (get_prop body "data") c)).1.
Proof.
  unfold authMiddleware.
  destruct (getCookie c _) as [tok |]; [| done].
  destruct (getCurrentUser_returns net tok (env_options c)) as [v Hv].
  rewrite Hv. unfold bind.
  destruct (truthy v) eqn:Ht; simpl; [| done].
  destruct (getCurrentUser_truthy _ _ _ _ Hv Ht) as (r & body & Hnet & Hok & Hb & ->).
  destruct (next _) as [rs [[] | e]] eqn:Hn; simpl; [| done].
  intros [= <-]. exists tok, r, body. by rewrite app_nil_r, Hn.
Qed.

(** X6. A success response is not enough.  With the cookie present, when
    the body of a 2xx answer is not JSON, is null, or is an object with no
    [data] field (or a null one), the gate throws the 401 exception after
    its one lookup and the rest of the chain does not run. *)
Theorem authMiddleware_rejects_malformed (c : HonoContext)
    (next : HonoContext → IO unit) sessionToken r :
  getCookie c MOCHA_SESSION_TOKEN_COOKIE_NAME = Some sessionToken →
  net (users_me_request sessionToken (env_options c)) = FetchResolved r →
  ok r = true →
  json_body r = None ∨ json_body r = Some JNull ∨
  (∃ fields, json_body r = Some (JObj fields) ∧
             (assoc "data" fields = None ∨ assoc "data" fields = Some JNull)) →
  authMiddleware net c next
  = ([users_me_request sessionToken (env_options c)],
     Throw (HTTPException 401 "Invalid session token")).
Proof.
  intros Hc Hnet Hok Hbody. unfold authMiddleware. rewrite Hc.
  unfold getCurrentUser, try_catch, bind, fetch, json, lift, destructure, ret, throw.
  rewrite Hnet. simpl. rewrite Hok. simpl.
  destruct Hbody as [-> | [-> | (fields & -> & [Hd | Hd])]]; simpl;
    rewrite ?Hd; done.
Qed.

(** X7. With the cookie present, its value empty included, the gate makes
    exactly one lookup of its own, with that value as bearer token and the
    url and key of the environment; and the context the rest of the chain
    sees differs from the request's only in the [user] variable. *)
Theorem authMiddleware_one_lookup (c : HonoContext)
    (next : HonoContext → IO unit) sessionToken :
  getCookie c MOCHA_SESSION_TOKEN_COOKIE_NAME = Some sessionToken →
  let req := users_me_request sessionToken (env_options c) in
  assoc_header "Authorization" (req_headers req) = Some ("Bearer " +:+ sessionToken) ∧
  ((authMiddleware net c next).1 = [req] ∨
   ∃ user, (authMiddleware net c next).1 = req :: (next (c_set "user" user c)).1) ∧
  ∀ user,
    cookies (c_set "user" user c) = cookies c ∧
    env_options (c_set "user" user c) = env_options c ∧
    ∀ key, key ≠ "user" → vars (c_set "user" user c) !! key = vars c !! key.
Proof.
  intros Hc req. split; [done |]. split.
  - unfold authMiddleware. rewrite Hc.
    destruct (getCurrentUser_returns net sessionToken (env_options c)) as [v ->].
    unfold bind. destruct (truthy v); simpl; [| by left].
    right. exists v.
    destruct (next _) as [rs [[] | e]]; simpl; by rewrite ?app_nil_r.
  - intros user. split; [done |]. split; [done |].
    intros key Hk. simpl. by rewrite lookup_insert_ne.
Qed.

End BackendMore.

(** ** Who settles which promise *)

Section Ownership.

Import Provider ProviderInv ProviderOwnership.

Ltac split_lookups :=
  repeat match goal with
  | H : <[_ := _]> _ !! _ = Some _ |- _ =>
      apply lookup_insert_Some in H as [[<- <-] | [? H]]
  | H : delete _ _ !! _ = Some _ |- _ =>
      apply lookup_delete_Some in H as [? H]
  end.

(** Reactions fulfil the exchanges they belong to and touch no other
    promise. *)
Lemma run_waiters_hit o ws : ∀ st x,
  ExchangeAwaitsUser x ∈ ws →
  promises (foldl (run_waiter o) st ws) !! x = Some (Settled Fulfilled).
Proof.
  induction ws as [| w ws IH]; intros st x Hin; [by apply elem_of_nil in Hin |].
  apply elem_of_cons in Hin as [<- | Hin]; simpl; [| by apply IH].
  apply (fr_fulfilled _ _ (frame_run_waiters o ws _)).
  destruct o; simpl; apply lookup_insert_eq.
Qed.

Lemma run_waiters_miss o ws : ∀ st x,
  ExchangeAwaitsUser x ∉ ws →
  promises (foldl (run_waiter o) st ws) !! x = promises st !! x.
Proof.
  induction ws as [| w ws IH]; intros st x Hin; [done |].
  apply not_elem_of_cons in Hin as [Hw Hin]. simpl. rewrite IH by done.
  destruct w as [| e]; [done |].
  destruct o; simpl; (rewrite lookup_insert_ne; [done | congruence]).
Qed.

Lemma settle_hit q o ws st x :
  promises st !! q = Some (Pending ws) → ExchangeAwaitsUser x ∈ ws →
  promises (settle q o st) !! x = Some (Settled Fulfilled).
Proof. intros Hq Hin. unfold settle. rewrite Hq. by apply run_waiters_hit. Qed.

Lemma settle_miss q o ws st x :
  promises st !! q = Some (Pending ws) → x ≠ q → ExchangeAwaitsUser x ∉ ws →
  promises (settle q o st) !! x = promises st !! x.
Proof.
  intros Hq Hne Hin. unfold settle. rewrite Hq, run_waiters_miss by done.
  simpl. by rewrite lookup_insert_ne.
Qed.

Lemma settle_self q o ws st :
  promises st !! q = Some (Pending ws) → ExchangeAwaitsUser q ∉ ws →
  promises (settle q o st) !! q = Some (Settled o).
Proof.
  intros Hq Hin. unfold settle. rewrite Hq, run_waiters_miss by done.
  simpl. apply lookup_insert_eq.
Qed.

Lemma owned_init : owned init.
Proof.
  split; simpl; try done.
  intros p [ws Hp]. simpl in Hp. done.
Qed.

(** [owned] reads the two tables, the two slots, [next_pid] and
    [isFetching]. *)
Lemma own_ext st st' :
  owned st →
  inflight st' = inflight st → promises st' = promises st →
  userRef st' = userRef st → exchangeRef st' = exchangeRef st →
  next_pid st' = next_pid st → isFetching st' = isFetching st →
  owned st'.
Proof.
  intros [O1 O2 O3 O4 O5 O6 O7] Hi Hp Hu He Hnp Hf.
  split; unfold is_pending in *; rewrite ?Hi, ?Hp, ?Hu, ?He, ?Hnp, ?Hf; done.
Qed.

(** A new body starts, with a new promise, and parks at its first
    [await]. *)
Lemma own_park st st' k :
  inv st → owned st → cont_pid k = next_pid st →
  inflight st' = <[next_rid st := k]> (inflight st) →
  promises st' = <[next_pid st := Pending []]> (promises st) →
  next_pid st' = S (next_pid st) →
  (user_cont k = true ∧ exchange_cont k = false ∧ userRef st = None ∧
   userRef st' = Some (next_pid st) ∧ exchangeRef st' = exchangeRef st ∧
   isFetching st' = true
   ∨ user_cont k = false ∧ userRef st' = userRef st ∧
     isFetching st' = isFetching st ∧
     (exchange_cont k = false ∧ exchangeRef st' = exchangeRef st
      ∨ exchangeRef st = None ∧ exchangeRef st' = Some (next_pid st))) →
  owned st'.
Proof.
  intros Hinv [O1 O2 O3 O4 O5 O6 O7] Hpid Hi Hp Hnp Hslots.
  pose proof (inv_parked _ Hinv) as K1.
  assert (∀ q x, promises st !! q = Some x → q ≠ next_pid st) as Hfresh.
  { intros q x Hq. apply O1 in Hq. lia. }
  assert (∀ r k0, inflight st !! r = Some k0 → r ≠ next_rid st) as Hfreshr.
  { intros r k0 Hr. apply K1 in Hr. lia. }
  assert (∀ q, userRef st = Some q → userRef st' = Some q) as Hu.
  { intros q Hq. destruct Hslots as [(_ & _ & Hn & _) | (_ & -> & _)]; congruence. }
  assert (∀ e, exchangeRef st = Some e → exchangeRef st' = Some e) as Hx.
  { intros e He.
    destruct Hslots as [(_ & _ & _ & _ & -> & _) | (_ & _ & _ & [[_ ->] | [Hn _]])];
      congruence. }
  assert (∀ q, is_pending st q → is_pending st' q) as Hpend.
  { intros q [ws Hq]. exists ws. rewrite Hp, lookup_insert_ne; [done |].
    intros <-. by apply Hfresh in Hq. }
  split; unfold is_pending in *; rewrite ?Hi, ?Hnp.
  - intros p x H. rewrite Hp in H. split_lookups; [lia |]. apply O1 in H. lia.
  - intros r k0 H. split_lookups.
    + exists []. rewrite Hp, Hpid. apply lookup_insert_eq.
    + apply Hpend. eauto.
  - intros r k0 H Hk0. split_lookups.
    + destruct Hslots as [(_ & Hk & _) | (_ & _ & _ & [[Hk _] | [_ ->]])];
        congruence.
    + apply Hx. eauto.
  - intros q ws w H Hin. rewrite Hp in H.
    apply lookup_insert_Some in H as [[<- Heq] | [? H]];
      [injection Heq as <-; by apply elem_of_nil in Hin |].
    apply Hu. eauto.
  - intros q ws e H Hin. rewrite Hp in H.
    apply lookup_insert_Some in H as [[<- Heq] | [? H]];
      [injection Heq as <-; by apply elem_of_nil in Hin |].
    destruct (O5 _ _ _ H Hin) as (He & Hpe & Hnp').
    split; [by apply Hx |]. split; [by apply Hpend |].
    intros r k0 Hr. split_lookups; [| eauto].
    rewrite Hpid. destruct Hpe as [ws' Hws']. intros <-. by apply Hfresh in Hws'.
  - intros p [ws H]. rewrite Hp in H.
    apply lookup_insert_Some in H as [[<- Heq] | [? H]].
    + left. exists (next_rid st), k. by rewrite lookup_insert_eq.
    + destruct (O6 p) as [(r & k0 & Hr & Hk0) | (q & ws' & Hq & Hws' & Hin)];
        [by exists ws | |].
      * left. exists r, k0. rewrite lookup_insert_ne; [done |].
        intros <-. by apply Hfreshr in Hr.
      * right. exists q, ws'. split; [by apply Hu |]. split; [| done].
        rewrite Hp, lookup_insert_ne; [done |]. intros <-. by apply Hfresh in Hws'.
  - destruct Hslots as [(_ & _ & _ & -> & _ & ->) | (_ & -> & -> & _)]; done.
Qed.

(** A body that is not one of [fetchUser] ends and fulfils its promise. *)
Lemma own_finish st st' r k :
  inv st → owned st → inflight st !! r = Some k → user_cont k = false →
  inflight st' = delete r (inflight st) →
  promises st' = <[cont_pid k := Settled Fulfilled]> (promises st) →
  userRef st' = userRef st → exchangeRef st' = exchangeRef st →
  next_pid st' = next_pid st → isFetching st' = isFetching st →
  owned st'.
Proof.
  intros Hinv [O1 O2 O3 O4 O5 O6 O7] Hr Hk Hi Hp Hu He Hnp Hf.
  pose proof (inv_distinct _ Hinv) as K2.
  assert (∀ r' k', inflight st !! r' = Some k' → r ≠ r' → cont_pid k' ≠ cont_pid k)
    as Hother.
  { intros r' k' Hr' Hne Heq. apply Hne. by apply (K2 r r' k k'). }
  split; unfold is_pending in *; rewrite ?Hi, ?Hu, ?He, ?Hnp, ?Hf; try done.
  - intros p x H. rewrite Hp in H.
    apply lookup_insert_Some in H as [[<- _] | [_ H]]; [| eauto].
    destruct (O2 _ _ Hr) as [ws Hws]. eauto.
  - intros r' k' H. split_lookups. destruct (O2 _ _ H) as [ws Hws].
    exists ws. rewrite Hp, lookup_insert_ne; [done |].
    intros Heq. by apply (Hother r' k').
  - intros r' k' H. split_lookups. eauto.
  - intros q ws w H. rewrite Hp in H.
    apply lookup_insert_Some in H as [[_ Heq] | [_ H]]; [done | eauto].
  - intros q ws e H Hin. rewrite Hp in H.
    apply lookup_insert_Some in H as [[_ Heq] | [_ H]]; [done |].
    destruct (O5 _ _ _ H Hin) as (Hx & [ws' Hpe] & Hnp').
    split; [done |]. split.
    + exists ws'. rewrite Hp, lookup_insert_ne; [done |]. by apply (Hnp' r).
    + intros r' k' Hr'. split_lookups. eauto.
  - intros p [ws H]. rewrite Hp in H.
    apply lookup_insert_Some in H as [[_ Heq] | [Hne H]]; [done |].
    destruct (O6 p) as [(r' & k' & Hr' & Hk') | (q & ws' & Hq & Hws' & Hin)];
      [by exists ws | |].
    + left. exists r', k'. rewrite lookup_delete_ne; [done |].
      intros <-. congruence.
    + right. exists q, ws'. split; [done |]. split; [| done].
      rewrite Hp, lookup_insert_ne; [done |].
      destruct (inv_slot _ Hinv _ Hq) as (_ & r0 & k0 & Hr0 & Hk0 & Hpid0).
      intros Heq. assert (r = r0) as <- by (apply (K2 r r0 k k0); congruence).
      congruence.
Qed.

(** A body moves from [await fetch] to [await response.json()]. *)
Lemma own_repark st st' r k k' :
  owned st → inflight st !! r = Some k →
  cont_pid k' = cont_pid k → exchange_cont k' = false →
  inflight st' = <[r := k']> (delete r (inflight st)) →
  promises st' = promises st →
  userRef st' = userRef st → exchangeRef st' = exchangeRef st →
  next_pid st' = next_pid st → isFetching st' = isFetching st →
  owned st'.
Proof.
  intros [O1 O2 O3 O4 O5 O6 O7] Hr Hpid Hk Hi Hp Hu He Hnp Hf.
  split; unfold is_pending in *; rewrite ?Hi, ?Hp, ?Hu, ?He, ?Hnp, ?Hf; try done.
  - intros r0 k0 H. split_lookups; [rewrite Hpid |]; eauto.
  - intros r0 k0 H Hk0. split_lookups; [congruence | eauto].
  - intros q ws e H Hin. destruct (O5 _ _ _ H Hin) as (Hx & Hpe & Hnp').
    split; [done |]. split; [done |].
    intros r0 k0 H0. split_lookups; [rewrite Hpid |]; eauto.
  - intros p Hpend. destruct (O6 p Hpend) as [(r0 & k0 & Hr0 & Hk0) | Hright];
      [| by right].
    left. destruct (decide (r = r0)) as [<- |].
    + exists r, k'. rewrite lookup_insert_eq. split; [done |]. congruence.
    + exists r0, k0. by rewrite lookup_insert_ne, lookup_delete_ne.
Qed.

(** The body of [fetchUser] ends: the slot is empty, its promise settles
    and the reactions run. *)
Lemma own_user_done st st1 r k o :
  inv st → owned st → inflight st !! r = Some k → user_cont k = true →
  inflight st1 = delete r (inflight st) → promises st1 = promises st →
  userRef st1 = None → exchangeRef st1 = exchangeRef st →
  next_pid st1 = next_pid st → isFetching st1 = false →
  owned (settle (cont_pid k) o st1).
Proof.
  intros Hinv [O1 O2 O3 O4 O5 O6 O7] Hr Hk Hi Hp Hu He Hnp Hf.
  pose proof (inv_distinct _ Hinv) as K2.
  pose proof (inv_user_cont _ Hinv _ _ Hr Hk) as Hslot.
  destruct (O2 _ _ Hr) as [ws Hws].
  assert (promises st1 !! cont_pid k = Some (Pending ws)) as Hws1 by by rewrite Hp.
  assert (∀ x, ExchangeAwaitsUser x ∈ ws →
               ∀ r' k', inflight st !! r' = Some k' → cont_pid k' ≠ x) as Hnotparked.
  { intros x Hin. by destruct (O5 _ _ _ Hws Hin) as (_ & _ & H). }
  assert (ExchangeAwaitsUser (cont_pid k) ∉ ws) as Hself.
  { intros Hin. by apply (Hnotparked _ Hin r k). }
  (* the promises afterwards *)
  assert (∀ x y, promises (settle (cont_pid k) o st1) !! x = Some y →
            ExchangeAwaitsUser x ∈ ws ∧ y = Settled Fulfilled ∨
            x = cont_pid k ∧ y = Settled o ∨
            (ExchangeAwaitsUser x ∉ ws) ∧ x ≠ cont_pid k ∧ promises st !! x = Some y)
    as Hafter.
  { intros x y Hx. destruct (decide (ExchangeAwaitsUser x ∈ ws)) as [Hin | Hin].
    - left. split; [done |]. rewrite (settle_hit _ _ _ _ _ Hws1 Hin) in Hx. congruence.
    - right. destruct (decide (x = cont_pid k)) as [-> | Hne].
      + left. split; [done |]. rewrite (settle_self _ _ _ _ Hws1 Hself) in Hx. congruence.
      + right. rewrite (settle_miss _ _ _ _ _ Hws1 Hne Hin), Hp in Hx. done. }
  assert (∀ x ws', promises (settle (cont_pid k) o st1) !! x = Some (Pending ws') →
            (ExchangeAwaitsUser x ∉ ws) ∧ x ≠ cont_pid k ∧
            promises st !! x = Some (Pending ws')) as Hpend.
  { intros x ws' Hx. by destruct (Hafter _ _ Hx) as [[_ ?] | [[_ ?] | ?]]. }
  pose proof (frame_settle (cont_pid k) o st1) as [_ F2 F3 F4 F5 F6 _ _ _ _ _].
  split; unfold is_pending in *; rewrite ?F2, ?F3, ?F4, ?F5, ?F6, ?Hi, ?Hu, ?He, ?Hnp, ?Hf;
    try done.
  - intros p x Hx. destruct (Hafter _ _ Hx) as [[Hin _] | [[-> _] | (_ & _ & Hold)]];
      [| eauto | eauto].
    destruct (O5 _ _ _ Hws Hin) as (_ & [ws' Hpe] & _). eauto.
  - intros r' k' H. split_lookups. destruct (O2 _ _ H) as [ws' Hws'].
    exists ws'. rewrite (settle_miss _ _ ws), Hp; try done.
    + intros Heq. assert (r = r') by (by apply (K2 r r' k k')). done.
    + intros Hin. by apply (Hnotparked _ Hin r' k').
  - intros r' k' H. split_lookups. eauto.
  - intros q ws' w Hq Hin. destruct (Hpend _ _ Hq) as (_ & Hne & Hold).
    pose proof (O4 _ _ _ Hold Hin). congruence.
  - intros q ws' e Hq Hin. destruct (Hpend _ _ Hq) as (_ & Hne & Hold).
    pose proof (O4 _ _ (ExchangeAwaitsUser e) Hold Hin). congruence.
  - intros p [ws' Hq]. destruct (Hpend _ _ Hq) as (Hnin & Hne & Hold).
    destruct (O6 p) as [(r' & k' & Hr' & Hk') | (q & ws'' & Hq' & Hws'' & Hin)];
      [by exists ws' | |].
    + left. exists r', k'. rewrite lookup_delete_ne; [done |].
      intros <-. congruence.
    + exfalso. apply Hnin. congruence.
Qed.

(** The mount effect attaches its callbacks to the promise in the slot. *)
Lemma own_attach_mount st q :
  inv st → owned st → userRef st = Some q → owned (attach q MountThen st).
Proof.
  intros Hinv [O1 O2 O3 O4 O5 O6 O7] Hu.
  destruct (inv_slot _ Hinv _ Hu) as ([ws Hws] & _).
  rewrite (attach_pending _ _ _ _ Hws).
  assert (∀ x, is_pending st x → is_pending (set_promise q (Pending (ws ++ [MountThen])) st) x)
    as Hkeep.
  { intros x [ws' Hx]. unfold is_pending. simpl.
    destruct (decide (q = x)) as [-> |];
      [rewrite lookup_insert_eq | rewrite lookup_insert_ne]; eauto. }
  split; unfold is_pending in *; simpl; try done.
  - intros p x H. apply lookup_insert_Some in H as [[<- _] | [_ H]]; eauto.
  - intros r k H. apply Hkeep. eauto.
  - intros p ws' w H Hin.
    apply lookup_insert_Some in H as [[<- _] | [_ H]]; eauto.
  - intros p ws' e H Hin.
    apply lookup_insert_Some in H as [[<- Heq] | [_ H]].
    + injection Heq as <-. apply elem_of_app in Hin as [Hin | Hin];
        [| by apply list_elem_of_singleton in Hin].
      destruct (O5 _ _ _ Hws Hin) as (? & ? & ?). split; [done |].
      split; [by apply Hkeep | done].
    + destruct (O5 _ _ _ H Hin) as (? & ? & ?). split; [done |].
      split; [by apply Hkeep | done].
  - intros p [ws' H].
    assert (is_pending st p) as Hold.
    { apply lookup_insert_Some in H as [[<- _] | [_ H]]; [by exists ws | by exists ws']. }
    destruct (O6 p Hold) as [Hleft | (q' & ws'' & Hq' & Hws'' & Hin)]; [by left |].
    right. assert (q' = q) as -> by congruence.
    exists q, (ws ++ [MountThen]). rewrite lookup_insert_eq.
    split; [done |]. split; [done |]. apply elem_of_app. left. congruence.
Qed.

(** An exchange whose request succeeded leaves its parking place and waits
    on the promise in the slot. *)
Lemma own_convert st r e q :
  inv st → owned st → inflight st !! r = Some (ExchangeAwaitsFetch e) →
  userRef st = Some q →
  owned (attach q (ExchangeAwaitsUser e) (set_inflight (delete r (inflight st)) st)).
Proof.
  intros Hinv [O1 O2 O3 O4 O5 O6 O7] Hr Hu.
  pose proof (inv_distinct _ Hinv) as K2.
  destruct (inv_slot _ Hinv _ Hu) as ([ws Hws] & r0 & k0 & Hr0 & Hk0 & Hpid0).
  rewrite (attach_pending _ _ ws) by done.
  pose proof (O3 _ _ Hr eq_refl) as Hx. simpl in Hx.
  assert (∀ r' k', inflight st !! r' = Some k' → r ≠ r' → cont_pid k' ≠ e) as Hother.
  { intros r' k' Hr' Hne Heq. apply Hne.
    apply (K2 r r' (ExchangeAwaitsFetch e) k'); [done | done | simpl; congruence]. }
  assert (∀ q' ws' e', promises st !! q' = Some (Pending ws') →
                       ExchangeAwaitsUser e' ∉ ws') as Hnone.
  { intros q' ws' e' Hq' Hin. destruct (O5 _ _ _ Hq' Hin) as (Hx' & _ & Hnp).
    apply (Hnp r _ Hr). simpl. congruence. }
  assert (∀ x, is_pending st x →
            is_pending (set_promise q (Pending (ws ++ [ExchangeAwaitsUser e]))
                          (set_inflight (delete r (inflight st)) st)) x) as Hkeep.
  { intros x [ws' Hx']. unfold is_pending. simpl.
    destruct (decide (q = x)) as [-> |];
      [rewrite lookup_insert_eq | rewrite lookup_insert_ne]; eauto. }
  split; unfold is_pending in *; simpl; try done.
  - intros p x H. apply lookup_insert_Some in H as [[<- _] | [_ H]]; eauto.
  - intros r' k' H. split_lookups. apply Hkeep. eauto.
  - intros r' k' H. split_lookups. eauto.
  - intros p ws' w H Hin.
    apply lookup_insert_Some in H as [[<- _] | [_ H]]; eauto.
  - intros p ws' e' H Hin.
    assert (e' = e) as ->.
    { apply lookup_insert_Some in H as [[<- Heq] | [_ H]].
      - injection Heq as <-. apply elem_of_app in Hin as [Hin | Hin].
        + by apply (Hnone _ _ _ Hws) in Hin.
        + apply list_elem_of_singleton in Hin. congruence.
      - by apply (Hnone _ _ _ H) in Hin. }
    split; [done |]. split; [apply Hkeep; by apply (O2 r _ Hr) |].
    intros r' k' Hr'. split_lookups. eauto.
  - intros p [ws' H].
    assert (is_pending st p) as Hold.
    { apply lookup_insert_Some in H as [[<- _] | [_ H]]; [by exists ws | by exists ws']. }
    destruct (O6 p Hold) as [(r' & k' & Hr' & Hk') | (q' & ws'' & Hq' & Hws'' & Hin)].
    + destruct (decide (r = r')) as [<- | Hne].
      * right. exists q, (ws ++ [ExchangeAwaitsUser e]). rewrite lookup_insert_eq.
        split; [done |]. split; [done |]. apply elem_of_app. right.
        apply list_elem_of_singleton. assert (k' = ExchangeAwaitsFetch e) as -> by congruence.
        simpl in Hk'. congruence.
      * left. exists r', k'. by rewrite lookup_delete_ne.
    + by apply (Hnone _ _ _ Hws'') in Hin.
Qed.

Lemma fetchUser_owned st : inv st → owned st → owned (fetchUser st).2.
Proof.
  intros Hinv Hown. unfold fetchUser. destruct (userRef st) eqn:Hu; [done |].
  simpl. eapply (own_park st _ (UserAwaitsFetch (next_pid st))); try done.
  left. by repeat split.
Qed.

(** Starting a user fetch and taking another body off its parking place
    commute. *)
Lemma fetchUser_unpark st r k :
  inv st → inflight st !! r = Some k →
  fetchUser (set_inflight (delete r (inflight st)) st)
  = ((fetchUser st).1,
     set_inflight (delete r (inflight (fetchUser st).2)) (fetchUser st).2).
Proof.
  intros Hinv Hr. unfold fetchUser. simpl. destruct (userRef st); [done |].
  simpl. unfold set_userRef, emit. simpl. f_equal. f_equal.
  rewrite delete_insert_ne; [done |].
  apply (inv_parked _ Hinv) in Hr. lia.
Qed.

Lemma fetchUser_keeps_parked st r k :
  inv st → inflight st !! r = Some k → inflight (fetchUser st).2 !! r = Some k.
Proof.
  intros Hinv Hr. unfold fetchUser. destruct (userRef st); [done |].
  simpl. rewrite lookup_insert_ne; [done |].
  apply (inv_parked _ Hinv) in Hr. lia.
Qed.

Lemma resume_fetch_owned st r k res :
  inv st → owned st → inflight st !! r = Some k →
  owned (resume_fetch k r res st).
Proof.
  intros Hinv Hown Hr. unfold resume_fetch.
  destruct k as [p | p b | p | p | p b | p]; try done.
  - destruct res as [e | resp]; [| destruct (ok resp)]; simpl.
    + by eapply (own_user_done st _ r (UserAwaitsFetch p)).
    + by eapply (own_repark st _ r (UserAwaitsFetch p) (UserAwaitsJson p _)).
    + by eapply (own_user_done st _ r (UserAwaitsFetch p)).
  - destruct res as [e | resp];
      by eapply (own_finish st _ r (LogoutAwaitsFetch p)).
  - destruct res as [e | resp]; [| destruct (ok resp)]; simpl.
    + by eapply (own_finish st _ r (RedirectAwaitsFetch p)).
    + by eapply (own_repark st _ r (RedirectAwaitsFetch p) (RedirectAwaitsJson p _)).
    + by eapply (own_finish st _ r (RedirectAwaitsFetch p)).
  - destruct res as [e | resp]; [| destruct (ok resp)]; simpl.
    + by eapply (own_finish st _ r (ExchangeAwaitsFetch p)).
    + cbv zeta. rewrite (fetchUser_unpark st r _ Hinv Hr).
      apply own_convert.
      * by apply fetchUser_inv.
      * by apply fetchUser_owned.
      * by apply fetchUser_keeps_parked.
      * apply fetchUser_slot.
    + by eapply (own_finish st _ r (ExchangeAwaitsFetch p)).
Qed.

Lemma resume_json_owned st r k :
  inv st → owned st → inflight st !! r = Some k → owned (resume_json k r st).
Proof.
  intros Hinv Hown Hr. unfold resume_json.
  destruct k as [p | p b | p | p | p b | p]; try done.
  - destruct b as [v |];
      by eapply (own_user_done st _ r (UserAwaitsJson p _)).
  - destruct b as [v |]; [destruct (destructure v "redirectUrl") |];
      by eapply (own_finish st _ r (RedirectAwaitsJson p _)).
Qed.

Lemma step_owned st ev : inv st → owned st → owned (step st ev).2.
Proof.
  intros Hinv Hown. destruct ev as [| | | | code | r res | r]; cbn [step].
  - unfold mount. pose proof (fetchUser_inv st Hinv).
    pose proof (fetchUser_owned st Hinv Hown). pose proof (fetchUser_slot st).
    destruct (fetchUser st) as [p st1]. by apply own_attach_mount.
  - pose proof (fetchUser_owned st Hinv Hown). by destruct (fetchUser st).
  - simpl. eapply (own_park st _ (LogoutAwaitsFetch (next_pid st))); try done.
    right. repeat split; try done. by left.
  - simpl. eapply (own_park st _ (RedirectAwaitsFetch (next_pid st))); try done.
    right. repeat split; try done. by left.
  - unfold exchangeCodeForSessionToken. destruct (exchangeRef st) eqn:Hx; [done |].
    destruct code as [c |]; [| done]. destruct (String.eqb c ""); [done |].
    simpl. eapply (own_park st _ (ExchangeAwaitsFetch (next_pid st))); try done.
    right. repeat split; try done. by right.
  - destruct (inflight st !! r) as [k |] eqn:Hr; [| done].
    destruct k; try done; exact (resume_fetch_owned _ _ _ _ Hinv Hown Hr).
  - destruct (inflight st !! r) as [k |] eqn:Hr; [| done].
    destruct k; try done; exact (resume_json_owned _ _ _ Hinv Hown Hr).
Qed.

Lemma run_owned evs : ∀ st, inv st → owned st → owned (run st evs).
Proof.
  induction evs as [| ev evs IH]; intros st Hinv Hown; [done |].
  apply IH; [by apply step_inv | by apply step_owned].
Qed.

Lemma reachable_owned st : reachable st → owned st.
Proof. intros [evs ->]. apply run_owned; [apply inv_init | apply owned_init]. Qed.

(** A promise that has settled is out of reach of every step: the promises
    a step writes are pending ones, or new. *)
Lemma step_keeps_settled st ev p o :
  inv st → owned st → promises st !! p = Some (Settled o) →
  promises (step st ev).2 !! p = Some (Settled o).
Proof.
  intros Hinv Hown Hp.
  pose proof (own_ids _ Hown _ _ Hp) as Hlt.
  assert (∀ st0, promises st0 !! p = Some (Settled o) → p < next_pid st0 →
                 promises (fetchUser st0).2 !! p = Some (Settled o)) as Hfetch.
  { intros st0 H0 Hlt0. unfold fetchUser. destruct (userRef st0); [done |].
    simpl. rewrite lookup_insert_ne; [done | lia]. }
  assert (∀ st0 q w, is_pending st0 q → promises st0 !! p = Some (Settled o) →
                     promises (attach q w st0) !! p = Some (Settled o)) as Hattach.
  { intros st0 q w [ws Hq] H0. rewrite (attach_pending _ _ _ _ Hq). simpl.
    rewrite lookup_insert_ne; [done | congruence]. }
  assert (∀ r k st0 o', inflight st !! r = Some k → user_cont k = true →
            promises st0 = promises st →
            promises (fetchUser_finally (cont_pid k) o' st0) !! p = Some (Settled o))
    as Hdone.
  { intros r k st0 o' Hr Hk H0. unfold fetchUser_finally.
    destruct (own_parked _ Hown _ _ Hr) as [ws Hws].
    rewrite (settle_miss _ _ ws); simpl; rewrite ?H0; try done.
    - congruence.
    - intros Hin. destruct (own_exchange_waiter _ Hown _ _ _ Hws Hin) as (_ & [? ?] & _).
      congruence. }
  assert (∀ r k, inflight st !! r = Some k →
            <[cont_pid k := Settled Fulfilled]> (promises st) !! p = Some (Settled o))
    as Hfinish.
  { intros r k Hr. destruct (own_parked _ Hown _ _ Hr) as [ws Hws].
    rewrite lookup_insert_ne; [done | congruence]. }
  destruct ev as [| | | | code | r res | r]; cbn [step].
  - unfold mount. pose proof (Hfetch st Hp Hlt) as H1.
    pose proof (inv_slot _ (fetchUser_inv st Hinv) _ (fetchUser_slot st)) as [H2 _].
    destruct (fetchUser st) as [q st1]. by apply Hattach.
  - pose proof (Hfetch st Hp Hlt). by destruct (fetchUser st).
  - simpl. rewrite lookup_insert_ne; [done | lia].
  - simpl. rewrite lookup_insert_ne; [done | lia].
  - unfold exchangeCodeForSessionToken. destruct (exchangeRef st); [done |].
    destruct code as [c |]; [| done]. destruct (String.eqb c ""); [done |].
    simpl. rewrite lookup_insert_ne; [done | lia].
  - destruct (inflight st !! r) as [k |] eqn:Hr; [| done].
    destruct k as [q | q b | q | q | q b | q]; try done;
      unfold resume_fetch; cbn [snd]; cbv zeta;
      destruct res as [e | resp]; try destruct (ok resp); cbn [negb];
      try (by apply (Hdone r (UserAwaitsFetch q)));
      try (by apply (Hfinish r _ Hr)); try done.
    rewrite (fetchUser_unpark st r _ Hinv Hr).
    apply Hattach; [| simpl; by apply Hfetch].
    apply (inv_slot _ (fetchUser_inv st Hinv) _ (fetchUser_slot st)).
  - destruct (inflight st !! r) as [k |] eqn:Hr; [| done].
    destruct k as [q | q b | q | q | q b | q]; try done;
      unfold resume_json; cbn [snd]; cbv zeta.
    + destruct b; by apply (Hdone r _ _ _ Hr).
    + destruct b as [v |]; [destruct (destructure v "redirectUrl") |];
        by apply (Hfinish r _ Hr).
Qed.

(** The promise of [fetchUser] settles as its body ends, untouched by the
    reactions. *)
Lemma fetchUser_finally_outcome st st0 r k o :
  owned st → inflight st !! r = Some k → promises st0 = promises st →
  promises (fetchUser_finally (cont_pid k) o st0) !! cont_pid k = Some (Settled o).
Proof.
  intros Hown Hr H0. unfold fetchUser_finally.
  destruct (own_parked _ Hown _ _ Hr) as [ws Hws].
  apply (settle_self _ _ ws); [simpl; by rewrite H0 |].
  intros Hin. destruct (own_exchange_waiter _ Hown _ _ _ Hws Hin) as (_ & _ & Hn).
  by apply (Hn r k).
Qed.

(** X9. [isFetching] is true exactly while a user fetch is outstanding:
    in every state the provider can reach, it is true if and only if the
    slot holds a promise, and that promise is then pending. *)
Theorem isFetching_iff_fetch_outstanding st :
  reachable st →
  (isFetching st = true ↔ ∃ p, userRef st = Some p ∧ is_pending st p) ∧
  (isFetching st = false ↔ userRef st = None).
Proof.
  intros Hreach. pose proof (reachable_inv _ Hreach) as Hinv.
  rewrite (own_isFetching _ (reachable_owned _ Hreach)).
  destruct (userRef st) as [p |] eqn:Hu; split; split; try done.
  - intros _. exists p. split; [done |]. apply (inv_slot _ Hinv _ Hu).
  - by intros (p & ? & _).
Qed.

(** X10. No promise is left behind: in every reachable state a pending
    promise waits for a request that is still outstanding, its own or, for
    an exchange whose request has succeeded, that of the user fetch in the
    slot.  So once every request has been answered, every promise the
    provider has handed out has settled. *)
Theorem pending_promise_has_a_request st p :
  reachable st → is_pending st p →
  (∃ r k, inflight st !! r = Some k ∧
          (cont_pid k = p ∨
           user_cont k = true ∧ userRef st = Some (cont_pid k) ∧
           exchangeRef st = Some p)) ∧
  inflight st ≠ ∅.
Proof.
  intros Hreach Hp. pose proof (reachable_inv _ Hreach) as Hinv.
  pose proof (reachable_owned _ Hreach) as Hown.
  assert (∃ r k, inflight st !! r = Some k ∧
          (cont_pid k = p ∨
           user_cont k = true ∧ userRef st = Some (cont_pid k) ∧
           exchangeRef st = Some p)) as (r & k & Hr & Hk).
  { destruct (own_pending _ Hown p Hp) as [(r & k & Hr & Hk) | (q & ws & Hq & Hws & Hin)].
    - exists r, k. eauto.
    - destruct (inv_slot _ Hinv _ Hq) as (_ & r & k & Hr & Hk & <-).
      destruct (own_exchange_waiter _ Hown _ _ _ Hws Hin) as (Hx & _).
      exists r, k. eauto. }
  split; [eauto |]. intros Hempty. by rewrite Hempty in Hr.
Qed.

(** X11. A promise settles once: in every reachable state, a promise that
    has settled has the same outcome after any further events. *)
Theorem promise_settles_once st p o evs :
  reachable st → promises st !! p = Some (Settled o) →
  promises (run st evs) !! p = Some (Settled o).
Proof.
  intros Hreach. pose proof (reachable_inv _ Hreach) as Hinv.
  pose proof (reachable_owned _ Hreach) as Hown. clear Hreach.
  revert st Hinv Hown. induction evs as [| ev evs IH]; intros st Hinv Hown Hp; [done |].
  apply IH; [by apply step_inv | by apply step_owned | by apply step_keeps_settled].
Qed.

(** X12. How a user fetch ends, in every reachable state.  A rejected
    [fetch] rejects the promise of [fetchUser] with the same error; a
    response that is not a success rejects it with an error naming the
    status; a success leaves it pending until the body is read, and then a
    body that parses fulfils it after storing the body as the user, while
    one that does not rejects it and stores nothing.  However it ends, the
    slot is empty and [isFetching] is false afterwards. *)
Theorem fetchUser_outcome st r p :
  reachable st →
  (inflight st !! r = Some (UserAwaitsFetch p) →
     (∀ e, promises (step st (FetchSettles r (FetchRejected e))).2 !! p
           = Some (Settled (Rejected e)) ∧
           isFetching (step st (FetchSettles r (FetchRejected e))).2 = false) ∧
     (∀ resp, ok resp = false →
        promises (step st (FetchSettles r (FetchResolved resp))).2 !! p
        = Some (Settled (Rejected (fetch_user_failed (status resp)))) ∧
        isFetching (step st (FetchSettles r (FetchResolved resp))).2 = false) ∧
     (∀ resp, ok resp = true →
        inflight (step st (FetchSettles r (FetchResolved resp))).2 !! r
        = Some (UserAwaitsJson p (json_body resp)) ∧
        is_pending (step st (FetchSettles r (FetchResolved resp))).2 p ∧
        userRef (step st (FetchSettles r (FetchResolved resp))).2 = Some p)) ∧
  (∀ v, inflight st !! r = Some (UserAwaitsJson p (Some v)) →
     promises (step st (JsonSettles r)).2 !! p = Some (Settled Fulfilled) ∧
     user (step st (JsonSettles r)).2 = v ∧
     isFetching (step st (JsonSettles r)).2 = false) ∧
  (inflight st !! r = Some (UserAwaitsJson p None) →
     (∃ msg, promises (step st (JsonSettles r)).2 !! p
             = Some (Settled (Rejected (SyntaxError msg)))) ∧
     user (step st (JsonSettles r)).2 = user st ∧
     isFetching (step st (JsonSettles r)).2 = false).
Proof.
  intros Hreach. pose proof (reachable_inv _ Hreach) as Hinv.
  pose proof (reachable_owned _ Hreach) as Hown.
  assert (∀ st0 q o', isFetching (fetchUser_finally q o' st0) = false) as Hflag.
  { intros st0 q o'. unfold fetchUser_finally.
    by rewrite (fr_isFetching _ _ (frame_settle _ _ _)). }
  assert (∀ st0 q o', user (fetchUser_finally q o' st0) = user st0) as Huser.
  { intros st0 q o'. unfold fetchUser_finally.
    by rewrite (fr_user _ _ (frame_settle _ _ _)). }
  split; [| split].
  - intros Hr. cbn [step]. rewrite Hr. unfold resume_fetch. cbn [snd]. cbv zeta.
    split; [| split].
    + intros e. split; [| apply Hflag].
      by apply (fetchUser_finally_outcome st _ r (UserAwaitsFetch p)).
    + intros resp ->. cbn [negb]. split; [| apply Hflag].
      by apply (fetchUser_finally_outcome st _ r (UserAwaitsFetch p)).
    + intros resp ->. cbn [negb]. simpl. split; [apply lookup_insert_eq |].
      pose proof (inv_user_cont _ Hinv _ _ Hr eq_refl) as Hu. simpl in Hu.
      split; [apply (inv_slot _ Hinv _ Hu) | done].
  - intros v Hr. cbn [step]. rewrite Hr. unfold resume_json. cbn [snd]. cbv zeta.
    split; [| split; [by rewrite Huser | apply Hflag]].
    by apply (fetchUser_finally_outcome st _ r (UserAwaitsJson p (Some v))).
  - intros Hr. cbn [step]. rewrite Hr. unfold resume_json. cbn [snd]. cbv zeta.
    split; [| split; [by rewrite Huser | apply Hflag]].
    eexists. by apply (fetchUser_finally_outcome st _ r (UserAwaitsJson p None)).
Qed.

(** X13. A failed exchange is swallowed.  When the exchange request is
    rejected or answered without success, the exchange promise is
    fulfilled, one console line is the only thing added to the trace, no
    user fetch is started and the stored user is untouched; in a reachable
    state the slot keeps that promise, so a later call gets the same
    fulfilled promise and the code is not sent again. *)
Theorem exchange_failure_is_swallowed st r e res :
  inflight st !! r = Some (ExchangeAwaitsFetch e) →
  (∀ resp, res = FetchResolved resp → ok resp = false) →
  promises (step st (FetchSettles r res)).2 !! e = Some (Settled Fulfilled) ∧
  (∃ err, trace (step st (FetchSettles r res)).2 = trace st ++ [ConsoleError "" err]) ∧
  user (step st (FetchSettles r res)).2 = user st ∧
  userRef (step st (FetchSettles r res)).2 = userRef st ∧
  (reachable st →
   ∀ code, step (step st (FetchSettles r res)).2 (CallExchange code)
           = (Handle e, (step st (FetchSettles r res)).2)).
Proof.
  intros Hr Hres. cbn [step]. rewrite Hr. unfold resume_fetch. cbn [snd]. cbv zeta.
  assert (reachable st → exchangeRef st = Some e) as Hx.
  { intros Hreach. apply (own_exchange_cont _ (reachable_owned _ Hreach) _ _ Hr eq_refl). }
  destruct res as [err | resp]; [| rewrite (Hres resp eq_refl); cbn [negb]];
    (split; [simpl; apply lookup_insert_eq |]);
    (split; [eexists; reflexivity |]);
    (split; [done |]); (split; [done |]);
    intros Hreach code; unfold exchangeCodeForSessionToken; simpl;
    by rewrite (Hx Hreach).
Qed.

(** X14. A successful exchange refreshes the user.  In a reachable state,
    when the exchange request is answered with a success, a user fetch is
    outstanding afterwards (one request goes to the current-user endpoint
    if none was outstanding, none if one was, which the exchange then
    shares), the exchange promise is still pending and waits on the promise
    of that fetch, and the stored user is not yet changed. *)
Theorem exchange_success_awaits_user_fetch st r e resp :
  reachable st → inflight st !! r = Some (ExchangeAwaitsFetch e) →
  ok resp = true →
  ∃ q ws,
    userRef (step st (FetchSettles r (FetchResolved resp))).2 = Some q ∧
    promises (step st (FetchSettles r (FetchResolved resp))).2 !! q
    = Some (Pending ws) ∧
    ExchangeAwaitsUser e ∈ ws ∧
    is_pending (step st (FetchSettles r (FetchResolved resp))).2 e ∧
    user (step st (FetchSettles r (FetchResolved resp))).2 = user st ∧
    requests_to "/api/users/me"
      (trace (step st (FetchSettles r (FetchResolved resp))).2)
    = requests_to "/api/users/me" (trace st)
      + match userRef st with Some _ => 0 | None => 1 end.
Proof.
  intros Hreach Hr Hok. pose proof (reachable_inv _ Hreach) as Hinv.
  pose proof (reachable_owned _ Hreach) as Hown.
  pose proof (step_inv st (FetchSettles r (FetchResolved resp)) Hinv) as Hinv'.
  pose proof (step_owned st (FetchSettles r (FetchResolved resp)) Hinv Hown) as Hown'.
  revert Hinv' Hown'.
  cbn [step]. rewrite Hr. unfold resume_fetch. cbn [snd]. cbv zeta.
  rewrite Hok. cbn [negb]. rewrite (fetchUser_unpark st r _ Hinv Hr).
  pose proof (fetchUser_slot st) as Hslot.
  destruct (inv_slot _ (fetchUser_inv st Hinv) _ Hslot) as ([ws Hws] & _).
  assert (user (fetchUser st).2 = user st ∧
          requests_to "/api/users/me" (trace (fetchUser st).2)
          = requests_to "/api/users/me" (trace st)
            + match userRef st with Some _ => 0 | None => 1 end) as [Hu Hreq].
  { unfold fetchUser. destruct (userRef st); simpl; [by rewrite Nat.add_0_r |].
    split; [done |]. rewrite !requests_to_snoc. simpl. lia. }
  rewrite (attach_pending _ _ ws) by done. intros Hinv' Hown'.
  exists (fetchUser st).1, (ws ++ [ExchangeAwaitsUser e]).
  split; [done |]. split; [simpl; apply lookup_insert_eq |].
  assert (ExchangeAwaitsUser e ∈ ws ++ [ExchangeAwaitsUser e]) as Hin.
  { apply elem_of_app. right. by apply list_elem_of_singleton. }
  split; [done |]. split; [| by split].
  apply (own_exchange_waiter _ Hown' (fetchUser st).1 (ws ++ [ExchangeAwaitsUser e]) e);
    [simpl; apply lookup_insert_eq | done].
Qed.

(** X15. The exchange completes with the user fetch it awaited.  In a
    reachable state in which the exchange slot holds [e] and no body is
    parked for [e] any more (its request has been answered): if no user
    fetch is outstanding then [e] is fulfilled; and while [e] is pending a
    user fetch is outstanding and carries the reaction that will fulfil
    [e]. *)
Theorem exchange_settles_with_user_fetch st e :
  reachable st → exchangeRef st = Some e →
  (∀ r k, inflight st !! r = Some k → cont_pid k ≠ e) →
  (userRef st = None → promises st !! e = Some (Settled Fulfilled)) ∧
  (is_pending st e →
   ∃ q ws, userRef st = Some q ∧ promises st !! q = Some (Pending ws) ∧
           ExchangeAwaitsUser e ∈ ws).
Proof.
  intros Hreach Hx Hnp. pose proof (reachable_inv _ Hreach) as Hinv.
  pose proof (reachable_owned _ Hreach) as Hown.
  assert (is_pending st e →
   ∃ q ws, userRef st = Some q ∧ promises st !! q = Some (Pending ws) ∧
           ExchangeAwaitsUser e ∈ ws) as Hwait.
  { intros Hp. destruct (own_pending _ Hown e Hp) as [(r & k & Hr & Hk) | H]; [| done].
    by apply Hnp in Hr. }
  split; [| done]. intros Hu.
  destruct (inv_exchange_promise _ Hinv e Hx) as [Hp | Hf]; [| done].
  destruct (Hwait Hp) as (q & _ & Hq & _). congruence.
Qed.

(** X8. [redirectToLogin] never throws at its caller and navigates only
    on success.  The call sends one request to the redirect-url endpoint.
    When that request is rejected or answered without success, the promise
    is fulfilled and a console line is the only thing added to the trace.
    When it is answered with a success the body is read, and then: a body
    that is not JSON, or is null, gives a console line and no navigation;
    any other body sets [window.location.href] to its [redirectUrl]
    field, which is [undefined] when the body has none. *)
Theorem redirectToLogin_never_throws st :
  step st CallRedirectToLogin
  = (Handle (next_pid st), (step st CallRedirectToLogin).2) ∧
  trace (step st CallRedirectToLogin).2
  = trace st ++ [Fetch (next_rid st) redirect_req] ∧
  inflight (step st CallRedirectToLogin).2 !! next_rid st
  = Some (RedirectAwaitsFetch (next_pid st)) ∧
  (∀ st' r p res, inflight st' !! r = Some (RedirectAwaitsFetch p) →
     (∀ resp, res = FetchResolved resp → ok resp = false) →
     promises (step st' (FetchSettles r res)).2 !! p = Some (Settled Fulfilled) ∧
     ∃ err, trace (step st' (FetchSettles r res)).2
            = trace st' ++ [ConsoleError "" err]) ∧
  (∀ st' r p resp, inflight st' !! r = Some (RedirectAwaitsFetch p) →
     ok resp = true →
     inflight (step st' (FetchSettles r (FetchResolved resp))).2 !! r
     = Some (RedirectAwaitsJson p (json_body resp)) ∧
     trace (step st' (FetchSettles r (FetchResolved resp))).2 = trace st') ∧
  (∀ st' r p body, inflight st' !! r = Some (RedirectAwaitsJson p body) →
     promises (step st' (JsonSettles r)).2 !! p = Some (Settled Fulfilled) ∧
     match body with
     | None | Some JNull | Some JUndefined =>
         ∃ err, trace (step st' (JsonSettles r)).2
                = trace st' ++ [ConsoleError "" err]
     | Some v =>
         trace (step st' (JsonSettles r)).2
         = trace st' ++ [SetLocationHref (get_prop v "redirectUrl")]
     end).
Proof.
  split; [done |]. split; [done |]. split; [simpl; apply lookup_insert_eq |].
  split; [| split].
  - intros st' r p res Hr Hres. cbn [step]. rewrite Hr. unfold resume_fetch.
    cbn [snd]. cbv zeta.
    destruct res as [err | resp]; [| rewrite (Hres resp eq_refl); cbn [negb]];
      (split; [simpl; apply lookup_insert_eq | eexists; reflexivity]).
  - intros st' r p resp Hr Hok. cbn [step]. rewrite Hr. unfold resume_fetch.
    cbn [snd]. cbv zeta. rewrite Hok. cbn [negb]. simpl.
    split; [apply lookup_insert_eq | done].
  - intros st' r p body Hr. cbn [step]. rewrite Hr. unfold resume_json.
    cbn [snd]. cbv zeta.
    destruct body as [[] |]; simpl;
      (split; [apply lookup_insert_eq | try done; eexists; reflexivity]).
Qed.

(** X16. [logout] and [redirectToLogin] are not coalesced: every call
    makes a promise of its own and sends a request of its own, so two calls
    in a row send two requests. *)
Theorem logout_and_redirect_are_not_coalesced st :
  (step (step st CallLogout).2 CallLogout).1 ≠ (step st CallLogout).1 ∧
  requests_to "/api/logout" (trace (run st [CallLogout; CallLogout]))
  = 2 + requests_to "/api/logout" (trace st) ∧
  (step (step st CallRedirectToLogin).2 CallRedirectToLogin).1
  ≠ (step st CallRedirectToLogin).1 ∧
  requests_to "/api/oauth/google/redirect_url"
    (trace (run st [CallRedirectToLogin; CallRedirectToLogin]))
  = 2 + requests_to "/api/oauth/google/redirect_url" (trace st).
Proof.
  repeat split; simpl; try (intros [= H]; lia);
    rewrite !requests_to_snoc; simpl; lia.
Qed.

(** X17. Reading the code.  With the exchange slot empty, an empty [code]
    parameter throws like a missing one and sends nothing; any other code
    sends one POST to the exchange endpoint with [{code}] as JSON body, and
    the slot holds the new promise from then on. *)
Theorem exchange_reads_code st c :
  exchangeRef st = None →
  (c = "" → step st (CallExchange (Some c)) = (Thrown no_code_error, st)) ∧
  (c ≠ "" →
   step st (CallExchange (Some c))
   = (Handle (next_pid st), (step st (CallExchange (Some c))).2) ∧
   trace (step st (CallExchange (Some c))).2
   = trace st ++ [Fetch (next_rid st) (sessions_req c)] ∧
   req_method (sessions_req c) = "POST" ∧
   req_body (sessions_req c) = Some (JObj [("code", JStr c)]) ∧
   assoc_header "Content-Type" (req_headers (sessions_req c))
   = Some "application/json" ∧
   exchangeRef (step st (CallExchange (Some c))).2 = Some (next_pid st) ∧
   user (step st (CallExchange (Some c))).2 = user st).
Proof.
  intros Hx. cbn [step]. unfold exchangeCodeForSessionToken. rewrite Hx. split.
  - by intros ->.
  - intros Hc. destruct (String.eqb_spec c ""); [done |]. by repeat split.
Qed.

(** X18. [isPending] is the initial resolution only: once it is false no
    event sets it again, whatever fetches follow. *)
Theorem isPending_never_returns st evs :
  isPending st = false → isPending (run st evs) = false.
Proof. apply (mono_isPending _ _ (mono_run evs st)). Qed.

End Ownership.

(** ** The provider with [loadUser] *)

Section LoadUserMore.

Import LoadUserProvider LoadUserInv.

Lemma loadUser_run_waiters_trace o ws : ∀ st url,
  requests_to url (trace (foldl (run_waiter o) st ws)) = requests_to url (trace st).
Proof.
  induction ws as [| w ws IH]; intros st url; [done |].
  cbn [foldl]. rewrite IH. destruct w, o; simpl; [done |].
  by rewrite requests_to_snoc, Nat.add_0_r.
Qed.

Lemma loadUser_run_waiters_fulfilled o ws : ∀ st x,
  promises st !! x = Some (Settled Fulfilled) →
  promises (foldl (run_waiter o) st ws) !! x = Some (Settled Fulfilled).
Proof.
  induction ws as [| w ws IH]; intros st x Hx; [done |].
  cbn [foldl]. apply IH. destruct w as [e], o; simpl;
    (destruct (decide (e = x)) as [-> |];
       [apply lookup_insert_eq | by rewrite lookup_insert_ne]).
Qed.

Lemma loadUser_settle_trace p o st url :
  requests_to url (trace (settle p o st)) = requests_to url (trace st).
Proof.
  unfold settle. destruct (promises st !! p) as [[ws | o'] |]; try done.
  by rewrite loadUser_run_waiters_trace.
Qed.

Lemma loadUser_attach_trace p w st url :
  requests_to url (trace (attach p w st)) = requests_to url (trace st).
Proof.
  unfold attach. destruct (promises st !! p) as [[ws | o] |]; try done.
  destruct w, o; simpl; [done |]. by rewrite requests_to_snoc, Nat.add_0_r.
Qed.

(** One request to the current-user endpoint when the slot is taken, none
    when it is empty. *)
Lemma loadUser_step_count st ev :
  requests_to "/api/users/me" (trace st)
  = match userRef st with Some _ => 1 | None => 0 end →
  requests_to "/api/users/me" (trace (step st ev).2)
  = match userRef (step st ev).2 with Some _ => 1 | None => 0 end.
Proof.
  intros Hc.
  assert (∀ st0, requests_to "/api/users/me" (trace st0)
                 = match userRef st0 with Some _ => 1 | None => 0 end →
            requests_to "/api/users/me" (trace (loadUser st0).2)
            = match userRef (loadUser st0).2 with Some _ => 1 | None => 0 end) as Hload.
  { intros st0 H0. unfold loadUser. destruct (userRef st0) eqn:Hu; simpl.
    - by rewrite H0, Hu.
    - by rewrite requests_to_snoc, H0. }
  destruct ev as [| | | | code | r res | r]; cbn [step]; try done.
  - pose proof (Hload st Hc). by destruct (loadUser st).
  - simpl. by rewrite !requests_to_snoc, Hc, !Nat.add_0_r.
  - simpl. by rewrite !requests_to_snoc, Hc, !Nat.add_0_r.
  - unfold exchangeCodeForSessionToken. destruct (exchangeRef st); [done |].
    destruct code as [c |]; [| done]. destruct (String.eqb c ""); [done |].
    simpl. by rewrite !requests_to_snoc, Hc, !Nat.add_0_r.
  - destruct (inflight st !! r) as [k |]; [| done].
    destruct k as [q | q b | q | q | q b | q]; try done;
      unfold resume_fetch, loadUser_catch; cbn [snd]; cbv zeta;
      destruct res as [e | resp]; try destruct (ok resp); cbn [negb];
      rewrite ?loadUser_settle_trace, ?(proj1 (proj2 (loadUser_settle_keep _ _ _)));
      simpl; rewrite ?requests_to_snoc, ?Nat.add_0_r; try done.
    pose proof (Hload (set_inflight (delete r (inflight st)) st) Hc) as H1.
    destruct (loadUser _) as [p st1].
    by rewrite loadUser_attach_trace, (proj1 (proj2 (loadUser_attach_keep _ _ _))).
  - destruct (inflight st !! r) as [k |]; [| done].
    destruct k as [q | q b | q | q | q b | q]; try done;
      unfold resume_json, loadUser_catch; cbn [snd]; cbv zeta.
    + destruct b;
        rewrite loadUser_settle_trace, (proj1 (proj2 (loadUser_settle_keep _ _ _)));
        simpl; by rewrite ?requests_to_snoc, ?Nat.add_0_r.
    + destruct b as [v |]; [destruct (destructure v "redirectUrl") |]; simpl;
        by rewrite ?requests_to_snoc, ?Nat.add_0_r.
Qed.

Lemma loadUser_run_count evs : ∀ st,
  requests_to "/api/users/me" (trace st)
  = match userRef st with Some _ => 1 | None => 0 end →
  requests_to "/api/users/me" (trace (run st evs))
  = match userRef (run st evs) with Some _ => 1 | None => 0 end.
Proof.
  induction evs as [| ev evs IH]; intros st Hc; [done |].
  apply IH. by apply loadUser_step_count.
Qed.

Lemma loadUser_run_slot evs : ∀ st p,
  userRef st = Some p → userRef (run st evs) = Some p.
Proof.
  induction evs as [| ev evs IH]; intros st p Hu; [done |].
  apply IH. by apply loadUser_slot_kept.
Qed.

(** X19. With [loadUser] the user is fetched at most once per page.  In
    every reachable state at most one request has gone to the current-user
    endpoint; and once the slot holds a promise it holds it after any
    events, every later call of [loadUser] gives that promise back, and the
    count of requests stays at one: the user is never fetched again, not
    after an exchange either. *)
Theorem loadUser_fetches_at_most_once st :
  reachable st →
  requests_to "/api/users/me" (trace st) ≤ 1 ∧
  ∀ p, userRef st = Some p →
    ∀ evs,
      userRef (run st evs) = Some p ∧
      step (run st evs) CallFetchUser = (Handle p, run st evs) ∧
      requests_to "/api/users/me" (trace (run st evs)) = 1.
Proof.
  intros [evs0 ->].
  pose proof (loadUser_run_count evs0 init eq_refl) as Hc. split.
  - rewrite Hc. destruct (userRef _); lia.
  - intros p Hu evs. pose proof (loadUser_run_slot evs _ _ Hu) as Hu'.
    split; [done |]. split.
    + cbn [step]. unfold loadUser. by rewrite Hu'.
    + by rewrite (loadUser_run_count evs _ Hc), Hu'.
Qed.

(** X20. [loadUser] never rejects.  However the user fetch ends (a
    rejected [fetch], a response that is not a success, a body that does
    not parse, a body that does), its pending promise is fulfilled; the
    stored user is the body in the last case and null in the others. *)
Theorem loadUser_never_rejects st r p ws :
  promises st !! p = Some (Pending ws) →
  (inflight st !! r = Some (UserAwaitsFetch p) →
   ∀ res, (∀ resp, res = FetchResolved resp → ok resp = false) →
     promises (step st (FetchSettles r res)).2 !! p = Some (Settled Fulfilled) ∧
     user (step st (FetchSettles r res)).2 = JNull) ∧
  (∀ body, inflight st !! r = Some (UserAwaitsJson p body) →
     promises (step st (JsonSettles r)).2 !! p = Some (Settled Fulfilled) ∧
     user (step st (JsonSettles r)).2 = default JNull body).
Proof.
  intros Hp.
  assert (∀ st0, promises st0 = promises st →
            promises (settle p Fulfilled st0) !! p = Some (Settled Fulfilled)) as Hs.
  { intros st0 H0. unfold settle. rewrite H0, Hp.
    apply loadUser_run_waiters_fulfilled. simpl. apply lookup_insert_eq. }
  split.
  - intros Hr res Hres. split; [| by apply (loadUser_failure_stores_null st r p)].
    cbn [step]. rewrite Hr. unfold resume_fetch, loadUser_catch. cbn [snd]. cbv zeta.
    destruct res as [e | resp]; [| rewrite (Hres resp eq_refl)]; by apply Hs.
  - intros body Hr. cbn [step]. rewrite Hr.
    unfold resume_json, loadUser_catch. cbn [snd]. cbv zeta.
    destruct body as [v |]; (split; [by apply Hs |]);
      by rewrite (proj1 (loadUser_settle_keep _ _ _)).
Qed.

End LoadUserMore.

(** ** Witnesses of the further properties *)

Section MoreWitnesses.

Import Backend Samples MoreSamples.


Lemma write_paths_surface_failures_witness :
  getOAuthRedirectUrl unreachable "google" options
  = ([redirect_url_request "google" options], Throw (TypeError "Failed to fetch")) ∧
  exchangeCodeForSessionToken unreachable "abc123" options
  = ([sessions_request (JStr "abc123") options], Throw (TypeError "Failed to fetch")) ∧
  (∃ msg, exchangeCodeForSessionToken garbling "abc123" options
          = ([sessions_request (JStr "abc123") options], Throw (SyntaxError msg))).
Proof.
  split; [| split].
  - exact (proj1 (write_paths_surface_failures unreachable "google" "abc123" options
                    eq_refl) _ eq_refl).
  - exact (proj1 (proj2 (write_paths_surface_failures unreachable "google" "abc123"
                           options eq_refl)) _ eq_refl).
  - exact (proj1 (proj2 (proj2 (proj2 (write_paths_surface_failures garbling "google"
                           "abc123" options eq_refl))) not_json eq_refl eq_refl)
                 eq_refl).
Defined.


Lemma authMiddleware_sound_witness :
  ∃ sessionToken r body,
    getCookie (context (Some "tok_1")) MOCHA_SESSION_TOKEN_COOKIE_NAME
    = Some sessionToken ∧
    directory (users_me_request sessionToken (env_options (context (Some "tok_1"))))
    = FetchResolved r ∧
    ok r = true ∧ json_body r = Some body ∧
    truthy (get_prop body "data") = true ∧
    [users_me_request "tok_1" options]
    = users_me_request sessionToken (env_options (context (Some "tok_1")))
      :: (handler (c_set "user" (get_prop body "data") (context (Some "tok_1")))).1.
Proof.
  apply (authMiddleware_sound directory (context (Some "tok_1")) handler). reflexivity.
Defined.

Lemma authMiddleware_rejects_malformed_witness :
  authMiddleware evasive (context (Some "tok_1")) handler
  = ([users_me_request "tok_1" (env_options (context (Some "tok_1")))],
     Throw (HTTPException 401 "Invalid session token")) ∧
  authMiddleware garbling (context (Some "tok_1")) handler
  = ([users_me_request "tok_1" (env_options (context (Some "tok_1")))],
     Throw (HTTPException 401 "Invalid session token")).
Proof.
  split.
  - apply (authMiddleware_rejects_malformed evasive (context (Some "tok_1")) handler
             "tok_1" no_data); try reflexivity.
    right. right. exists [("error", JNull)]. split; [reflexivity | by left].
  - apply (authMiddleware_rejects_malformed garbling (context (Some "tok_1")) handler
             "tok_1" not_json); try reflexivity.
    by left.
Defined.

Lemma authMiddleware_one_lookup_witness :
  assoc_header "Authorization"
    (req_headers (users_me_request "" (env_options (context (Some "")))))
  = Some "Bearer ".
Proof.
  apply (authMiddleware_one_lookup directory (context (Some "")) handler "").
  reflexivity.
Defined.

End MoreWitnesses.

Section CoordinatorWitnesses.

Import Provider ProviderInv ProviderOwnership Samples MoreSamples.

Lemma redirectToLogin_never_throws_witness :
  promises (step (step init CallRedirectToLogin).2 (FetchSettles 0 unauthorized)).2 !! 0
  = Some (Settled Fulfilled).
Proof.
  refine (proj1 (proj1 (proj2 (proj2 (proj2 (redirectToLogin_never_throws init))))
                   (step init CallRedirectToLogin).2 0 0 unauthorized _ _)).
  - vm_compute. reflexivity.
  - intros resp [= <-]. reflexivity.
Defined.

Lemma isFetching_iff_fetch_outstanding_witness :
  isFetching (run init [Mount]) = true
  ↔ ∃ p, userRef (run init [Mount]) = Some p ∧ is_pending (run init [Mount]) p.
Proof.
  exact (proj1 (isFetching_iff_fetch_outstanding (run init [Mount])
                  (ex_intro _ [Mount] eq_refl))).
Defined.

Lemma pending_promise_has_a_request_witness :
  inflight (run init [Mount]) ≠ ∅.
Proof.
  refine (proj2 (pending_promise_has_a_request (run init [Mount]) 0
                   (ex_intro _ [Mount] eq_refl) _)).
  exists [MountThen]. vm_compute. reflexivity.
Defined.

Lemma promise_settles_once_witness :
  promises (run (run init [Mount; FetchSettles 0 unauthorized])
                [CallFetchUser; FetchSettles 1 (ok_json ada); JsonSettles 1]) !! 0
  = Some (Settled (Rejected (fetch_user_failed 401))).
Proof.
  refine (promise_settles_once (run init [Mount; FetchSettles 0 unauthorized]) 0
            (Rejected (fetch_user_failed 401))
            [CallFetchUser; FetchSettles 1 (ok_json ada); JsonSettles 1]
            (ex_intro _ [Mount; FetchSettles 0 unauthorized] eq_refl) _).
  vm_compute. reflexivity.
Defined.

Lemma fetchUser_outcome_witness :
  promises (step (run init [Mount]) (FetchSettles 0 (FetchRejected (TypeError "Failed to fetch")))).2 !! 0
  = Some (Settled (Rejected (TypeError "Failed to fetch"))).
Proof.
  refine (proj1 (proj1 (proj1 (fetchUser_outcome (run init [Mount]) 0 0
                   (ex_intro _ [Mount] eq_refl)) _) (TypeError "Failed to fetch"))).
  vm_compute. reflexivity.
Defined.

Lemma exchange_failure_is_swallowed_witness :
  promises (step (run init callback_page) (FetchSettles 1 unauthorized)).2 !! 1
  = Some (Settled Fulfilled).
Proof.
  refine (proj1 (exchange_failure_is_swallowed (run init callback_page) 1 1
                   unauthorized _ _)).
  - vm_compute. reflexivity.
  - intros resp [= <-]. reflexivity.
Defined.

Lemma exchange_success_awaits_user_fetch_witness :
  ∃ q ws,
    userRef (step (run init callback_page)
               (FetchSettles 1 (FetchResolved no_data))).2 = Some q ∧
    promises (step (run init callback_page)
                (FetchSettles 1 (FetchResolved no_data))).2 !! q
    = Some (Pending ws) ∧
    ExchangeAwaitsUser 1 ∈ ws ∧
    is_pending (step (run init callback_page)
                  (FetchSettles 1 (FetchResolved no_data))).2 1 ∧
    user (step (run init callback_page)
            (FetchSettles 1 (FetchResolved no_data))).2
    = user (run init callback_page) ∧
    requests_to "/api/users/me"
      (trace (step (run init callback_page)
                (FetchSettles 1 (FetchResolved no_data))).2)
    = requests_to "/api/users/me" (trace (run init callback_page))
      + match userRef (run init callback_page) with Some _ => 0 | None => 1 end.
Proof.
  refine (exchange_success_awaits_user_fetch (run init callback_page) 1 1 no_data
            (ex_intro _ callback_page eq_refl) _ eq_refl).
  vm_compute. reflexivity.
Defined.

Lemma exchange_settles_with_user_fetch_witness :
  promises (run init (callback_page
                      ++ [FetchSettles 1 (FetchResolved no_data);
                          FetchSettles 0 unauthorized])) !! 1
  = Some (Settled Fulfilled).
Proof.
  refine (proj1 (exchange_settles_with_user_fetch
            (run init (callback_page
                       ++ [FetchSettles 1 (FetchResolved no_data);
                           FetchSettles 0 unauthorized])) 1
            (ex_intro _ _ eq_refl) _ _) _).
  - vm_compute. reflexivity.
  - intros r k H. vm_compute in H. discriminate.
  - vm_compute. reflexivity.
Defined.

Lemma exchange_reads_code_witness :
  trace (step init (CallExchange (Some "abc123"))).2
  = trace init ++ [Fetch (next_rid init) (sessions_req "abc123")].
Proof.
  refine (proj1 (proj2 (proj2 (exchange_reads_code init "abc123" eq_refl) _))).
  discriminate.
Defined.

Lemma isPending_never_returns_witness :
  isPending (run (run init [Mount; FetchSettles 0 unauthorized]) [CallFetchUser])
  = false.
Proof.
  refine (isPending_never_returns (run init [Mount; FetchSettles 0 unauthorized])
            [CallFetchUser] _).
  vm_compute. reflexivity.
Defined.

End CoordinatorWitnesses.

Section LoadUserWitnesses.

Import LoadUserProvider LoadUserInv Samples.

Lemma loadUser_fetches_at_most_once_witness :
  requests_to "/api/users/me"
    (trace (run (run init [CallFetchUser])
              [FetchSettles 0 unauthorized; CallFetchUser; CallExchange (Some "abc123");
               FetchSettles 1 (ok_json JNull)])) = 1.
Proof.
  refine (proj2 (proj2 (proj2 (loadUser_fetches_at_most_once (run init [CallFetchUser])
            (ex_intro _ [CallFetchUser] eq_refl)) 0 _
            [FetchSettles 0 unauthorized; CallFetchUser; CallExchange (Some "abc123");
             FetchSettles 1 (ok_json JNull)]))).
  vm_compute. reflexivity.
Defined.

Lemma loadUser_never_rejects_witness :
  promises (step (run init [CallFetchUser]) (FetchSettles 0 unauthorized)).2 !! 0
  = Some (Settled Fulfilled) ∧
  user (step (run init [CallFetchUser]) (FetchSettles 0 unauthorized)).2 = JNull.
Proof.
  refine (proj1 (loadUser_never_rejects (run init [CallFetchUser]) 0 0 [] _) _
            unauthorized _).
  - vm_compute. reflexivity.
  - vm_compute. reflexivity.
  - intros resp [= <-]. reflexivity.
Defined.

End LoadUserWitnesses.
